(** * boomerbot: change detection, topic classification and alert routing

    A shallow embedding of [boomer_bot.js]: the keyword classifier
    ([detectCategory]), the preference store ([getUserPrefs] and the
    [callback_query] handler), the poll-and-diff loop ([fetchMarkets],
    [monitorMarkets]) and the alert router ([sendAlert]).

    Modelling conventions.
    - A JavaScript string is a [string], a sequence of 8-bit code units
      (the literals of the source are kept in UTF-8).  [toLowerCase] lowers
      the letters [A]-[Z] and leaves every other code unit alone, which is
      what the source does on ASCII text.
    - A field of a market, as parsed from the feed's JSON, is a [jsval]:
      absent ([undefined]), [null], a string, or an array of such values.
      An identifier is absent, an integer or a string.
    - The module-level variables [seenMarkets], [firstRun] and [userPrefs]
      form, with the trace of the observable actions performed so far, the
      record [World].
    - The two collaborators (the HTTP feed and the messaging transport) are
      an environment [Env] whose answers may depend on the whole history.
      The feed answers a request by throwing or with a body that is falsy
      or an array of market objects.
    - One handler runs at a time: a poll cycle, a command or a callback is
      a function from worlds to worlds, written in the state monad [M]. *)

From Stdlib Require Import String Ascii List ZArith Lia Bool.
From stdpp Require Import base gmap strings list.

Local Open Scope string_scope.
Local Open Scope list_scope.

(** ** JavaScript strings *)

Module JsString.

(** [s.startsWith(p)] *)
Fixpoint startsWith (p s : string) : bool :=
  match p, s with
  | EmptyString, _ => true
  | String _ _, EmptyString => false
  | String a p', String b s' => Ascii.eqb a b && startsWith p' s'
  end.

(** [s.includes(k)]: [k] occurs in [s] at some position. *)
Fixpoint includes (s k : string) : bool :=
  startsWith k s ||
  match s with
  | EmptyString => false
  | String _ s' => includes s' k
  end.

Definition lower_ascii (c : ascii) : ascii :=
  let n := nat_of_ascii c in
  if (65 <=? n)%nat && (n <=? 90)%nat then ascii_of_nat (n + 32) else c.

(** [s.toLowerCase()] *)
Fixpoint toLowerCase (s : string) : string :=
  match s with
  | EmptyString => EmptyString
  | String c s' => String (lower_ascii c) (toLowerCase s')
  end.

(** Drop the first [n] code units. *)
Fixpoint skip (n : nat) (s : string) : string :=
  match n, s with
  | O, _ => s
  | S _, EmptyString => EmptyString
  | S n', String _ s' => skip n' s'
  end.

(** [s.replace(p, '')] for a string pattern [p]: the first occurrence of
    [p] is removed, the rest is kept. *)
Fixpoint remove_first (p s : string) : string :=
  if startsWith p s then skip (String.length p) s
  else match s with
       | EmptyString => EmptyString
       | String c s' => String c (remove_first p s')
       end.

(** [parts.join(sep)] *)
Fixpoint join (sep : string) (parts : list string) : string :=
  match parts with
  | [] => ""
  | [x] => x
  | x :: rest => x +:+ sep +:+ join sep rest
  end.

End JsString.

(** ** Field values *)

#[warnings="-register-all"]
Inductive jsval : Type :=
| JUndefined
| JNull
| JStr (s : string)
| JArr (elts : list jsval).

(** Truthiness, as used by [||] and [?:]. *)
Definition truthy (v : jsval) : bool :=
  match v with
  | JUndefined | JNull => false
  | JStr s => negb (String.eqb s "")
  | JArr _ => true
  end.

(** [a || b] *)
Definition js_or (a b : jsval) : jsval := if truthy a then a else b.

(** The string a value becomes under [+] with a string or inside a
    template literal.  An array is joined with commas, a [null] or
    [undefined] element contributing the empty string. *)
Fixpoint ToString (v : jsval) : string :=
  match v with
  | JUndefined => "undefined"
  | JNull => "null"
  | JStr s => s
  | JArr elts =>
      JsString.join ","
        (List.map (fun e => match e with
                            | JUndefined | JNull => ""
                            | _ => ToString e
                            end) elts)
  end.

(** ** Markets *)

(** The identifier of a market, a primitive compared by [Set] with
    SameValueZero. *)
Inductive MarketId : Type :=
| IdUndefined
| IdNum (n : Z)
| IdStr (s : string).

Global Instance MarketId_eq_dec : EqDecision MarketId.
Proof. solve_decision. Defined.

Global Instance MarketId_countable : Countable MarketId.
Proof.
  refine (inj_countable'
            (fun i => match i with
                      | IdUndefined => inl ()
                      | IdNum n => inr (inl n)
                      | IdStr s => inr (inr s)
                      end)
            (fun x => match x with
                      | inl _ => IdUndefined
                      | inr (inl n) => IdNum n
                      | inr (inr s) => IdStr s
                      end) _).
  intros []; reflexivity.
Defined.

(** The properties of a market object.  [detectCategory], [monitorMarkets]
    and [sendAlert] read [id], [question], [group], [tags] and [slug];
    [title] and [rest] stand for everything else the feed delivers. *)
Record Market : Type := mkMarket {
  id : MarketId;
  question : jsval;
  group : jsval;
  tags : jsval;
  slug : jsval;
  title : jsval;
  rest : list (string * jsval)
}.

(** ** Categories *)

Module CATEGORIES.
Definition POLITICS : string := "Politics".
Definition CRYPTO : string := "Crypto".
Definition SPORTS : string := "Sports".
Definition BUSINESS : string := "Business".
Definition SCIENCE : string := "Science".
Definition POPCULTURE : string := "Pop Culture".
Definition NEWS : string := "News".
Definition OTHER : string := "Other".

(** The eight values of the [CATEGORIES] object, in declaration order. *)
Definition all : list string :=
  [POLITICS; CRYPTO; SPORTS; BUSINESS; SCIENCE; POPCULTURE; NEWS; OTHER].
End CATEGORIES.

(** ** Classifier *)

(** The concatenation [detectCategory] builds, before lowering. *)
Definition concat_text (market : Market) : string :=
  ToString (question market) +:+ " " +:+
  ToString (js_or (group market) (JStr "")) +:+ " " +:+
  ToString (js_or (tags market) (JArr [])).

(** The text [detectCategory] inspects. *)
Definition category_text (market : Market) : string :=
  JsString.toLowerCase (concat_text market).

Definition detectCategory (market : Market) : string :=
  let text := category_text market in
  let inc := JsString.includes text in
  if inc "bitcoin" || inc "crypto" || inc "eth" || inc "solana" || inc "coin" || inc "token"
  then CATEGORIES.CRYPTO
  else if inc "election" || inc "trump" || inc "biden" || inc "senate" || inc "politics" || inc "vote"
  then CATEGORIES.POLITICS
  else if inc "nfl" || inc "nba" || inc "football" || inc "soccer" || inc "sport" || inc "f1" || inc "ufc"
  then CATEGORIES.SPORTS
  else if inc "stock" || inc "fed" || inc "rate" || inc "recession" || inc "economy" || inc "business" || inc "price"
  then CATEGORIES.BUSINESS
  else if inc "science" || inc "space" || inc "nasa" || inc "apple" || inc "gpt" || inc "ai " || inc "tech"
  then CATEGORIES.SCIENCE
  else if inc "movie" || inc "music" || inc "song" || inc "grammy" || inc "oscar" || inc "celebrity" || inc "spotify"
  then CATEGORIES.POPCULTURE
  else if inc "war" || inc "weather" || inc "climate" || inc "news" || inc "global"
  then CATEGORIES.NEWS
  else CATEGORIES.OTHER.

(** The classifier as the specification words it: an ordered table of
    rules, each a topic with its keywords; the first rule with a keyword
    occurring in the text wins, [Other] otherwise. *)
Module ClassifierSpec.

Definition rules : list (string * list string) :=
  [ (CATEGORIES.CRYPTO, ["bitcoin"; "crypto"; "eth"; "solana"; "coin"; "token"]);
    (CATEGORIES.POLITICS, ["election"; "trump"; "biden"; "senate"; "politics"; "vote"]);
    (CATEGORIES.SPORTS, ["nfl"; "nba"; "football"; "soccer"; "sport"; "f1"; "ufc"]);
    (CATEGORIES.BUSINESS, ["stock"; "fed"; "rate"; "recession"; "economy"; "business"; "price"]);
    (CATEGORIES.SCIENCE, ["science"; "space"; "nasa"; "apple"; "gpt"; "ai "; "tech"]);
    (CATEGORIES.POPCULTURE, ["movie"; "music"; "song"; "grammy"; "oscar"; "celebrity"; "spotify"]);
    (CATEGORIES.NEWS, ["war"; "weather"; "climate"; "news"; "global"]) ].

Definition rule_matches (text : string) (rule : string * list string) : bool :=
  existsb (JsString.includes text) (snd rule).

Fixpoint first_match (text : string) (rs : list (string * list string)) : string :=
  match rs with
  | [] => CATEGORIES.OTHER
  | r :: rs' => if rule_matches text r then fst r else first_match text rs'
  end.

Definition classify (market : Market) : string :=
  first_match (category_text market) rules.

(** The keywords of the rule for [topic]. *)
Definition keywords (topic : string) : list string :=
  match List.find (fun r => String.eqb (fst r) topic) rules with
  | Some r => snd r
  | None => []
  end.

Definition all_keywords : list string := List.concat (List.map snd rules).

End ClassifierSpec.


(** ** Preference records *)

Abbreviation ChatId := Z (only parsing).

(** A preference record is a plain object: its own properties are a finite
    map from keys to booleans ([true] at creation, results of [!] later). *)
Abbreviation Prefs := (gmap string bool) (only parsing).

(** The property names every plain object inherits from
    [Object.prototype]; each of them reads as a truthy value. *)
Definition object_prototype_keys : list string :=
  [ "constructor"; "__defineGetter__"; "__defineSetter__"; "hasOwnProperty";
    "__lookupGetter__"; "__lookupSetter__"; "isPrototypeOf";
    "propertyIsEnumerable"; "toString"; "valueOf"; "__proto__";
    "toLocaleString" ].

(** Truthiness of [prefs[key]]: the own property when there is one, else
    what the prototype provides, else [undefined]. *)
Definition prefs_read (prefs : Prefs) (key : string) : bool :=
  match prefs !! key with
  | Some b => b
  | None => bool_decide (key ∈ object_prototype_keys)
  end.

(** [prefs[key] = v] for a boolean [v]: an own property is created or
    overwritten, except for [__proto__], whose setter ignores a boolean. *)
Definition prefs_write (prefs : Prefs) (key : string) (v : bool) : Prefs :=
  if String.eqb key "__proto__" then prefs else <[key := v]> prefs.

(** The object literal of [getUserPrefs]. *)
Definition default_prefs : Prefs :=
  <[CATEGORIES.OTHER := true]>
  (<[CATEGORIES.NEWS := true]>
  (<[CATEGORIES.POPCULTURE := true]>
  (<[CATEGORIES.SCIENCE := true]>
  (<[CATEGORIES.BUSINESS := true]>
  (<[CATEGORIES.SPORTS := true]>
  (<[CATEGORIES.CRYPTO := true]>
  (<[CATEGORIES.POLITICS := true]> ∅))))))).

(** ** The [Map] of subscribers

    A JavaScript [Map] iterates in insertion order and [set] on a present
    key keeps its position: an association list with one entry per key. *)
Module JsMap.
Section Ops.
Context {V : Type}.

Fixpoint get (m : list (ChatId * V)) (k : ChatId) : option V :=
  match m with
  | [] => None
  | (k', v) :: m' => if Z.eqb k' k then Some v else get m' k
  end.

Definition has (m : list (ChatId * V)) (k : ChatId) : bool :=
  match get m k with Some _ => true | None => false end.

Fixpoint set (m : list (ChatId * V)) (k : ChatId) (v : V) : list (ChatId * V) :=
  match m with
  | [] => [(k, v)]
  | (k', v') :: m' =>
      if Z.eqb k' k then (k', v) :: m' else (k', v') :: set m' k v
  end.
End Ops.
End JsMap.

(** ** Observable actions *)

Definition button : Type := string * string.   (* text, callback_data *)
Definition keyboard : Type := list (list button).

(** What the program does to the outside, one constructor per call site.
    [EvSendAlert] records, next to the recipient and the text, the market
    the alert is about. *)
Inductive event : Type :=
| EvLogChecking                                  (* console.log, line 177 *)
| EvHttpGet                                      (* axios.get issued *)
| EvLogFetchError (message : string)             (* console.error, line 170 *)
| EvLogInitialized (tracking : nat)              (* console.log, line 183 *)
| EvLogNewMarket (market : Market)               (* console.log, line 189 *)
| EvSendAlert (chat : ChatId) (market : Market) (msg : string)
                                                 (* bot.sendMessage, line 223 *)
| EvLogSendFailed (chat : ChatId) (message : string) (* console.error, line 228 *)
| EvLogSubscribed (chat : ChatId)                (* console.log, line 98 *)
| EvSendKeyboard (chat : ChatId) (text : string) (kb : keyboard)
                                                 (* bot.sendMessage, lines 100, 113 *)
| EvEditKeyboard (chat : ChatId) (kb : keyboard) (* bot.editMessageReplyMarkup *)
| EvAnswerCallback (text : string).              (* bot.answerCallbackQuery *)

(** ** The collaborators *)

(** What one [axios.get] does: it throws (network error, timeout, bad
    status) or resolves with a body, [None] standing for a falsy body and
    [Some markets] for an array of market objects.  A request that never
    settles and a truthy body that is not such an array are not among the
    answers: statements about a cycle are about a cycle whose
    [fetchMarkets] call returned a list of markets. *)
Inductive fetch_result : Type :=
| FetchThrows (message : string)
| FetchData (data : option (list Market)).

(** The environment answers each request knowing everything that happened
    before it.  [bot_sendMessage] answers [Some message] when the delivery
    is rejected and [None] when it goes through. *)
Record Env : Type := mkEnv {
  axios_get : list event -> fetch_result;
  bot_sendMessage : list event -> ChatId -> string -> option string
}.

(** ** Program state *)

Record World : Type := mkWorld {
  seenMarkets : gset MarketId;
  firstRun : bool;
  userPrefs : list (ChatId * Prefs);
  trace : list event
}.

(** The state at process start (lines 32, 33 and 36). *)
Definition initial : World :=
  {| seenMarkets := ∅; firstRun := true; userPrefs := []; trace := [] |}.

(** ** Handlers as state transformers *)

Definition M (A : Type) : Type := World -> A * World.

Definition ret {A} (a : A) : M A := fun w => (a, w).

Definition bind {A B} (c : M A) (k : A -> M B) : M B :=
  fun w => let (a, w') := c w in k a w'.

Declare Scope js_scope.
Delimit Scope js_scope with js.
Notation "x <- c ;; k" := (bind c (fun x => k))
  (at level 100, c at next level, right associativity) : js_scope.
Notation "c ;; k" := (bind c (fun _ => k))
  (at level 100, right associativity) : js_scope.
Local Open Scope js_scope.

(** [for (const x of xs) body(x)] and [xs.forEach(body)] *)
Fixpoint forEach {A} (xs : list A) (body : A -> M unit) : M unit :=
  match xs with
  | [] => ret tt
  | x :: xs' => body x ;; forEach xs' body
  end.

(** The world reached by a handler. *)
Definition exec {A} (c : M A) (w : World) : World := snd (c w).

(** The actions a handler added to the trace. *)
Definition emitted {A} (c : M A) (w : World) : list event :=
  drop (length (trace w)) (trace (exec c w)).

Definition emit (e : event) : M unit :=
  fun w => (tt, {| seenMarkets := seenMarkets w; firstRun := firstRun w;
                   userPrefs := userPrefs w; trace := trace w ++ [e] |}).

Definition seenMarkets_has (i : MarketId) : M bool :=
  fun w => (bool_decide (i ∈ seenMarkets w), w).

Definition seenMarkets_add (i : MarketId) : M unit :=
  fun w => (tt, {| seenMarkets := {[i]} ∪ seenMarkets w; firstRun := firstRun w;
                   userPrefs := userPrefs w; trace := trace w |}).

Definition seenMarkets_size : M nat :=
  fun w => (size (seenMarkets w), w).

Definition read_firstRun : M bool := fun w => (firstRun w, w).

Definition write_firstRun (b : bool) : M unit :=
  fun w => (tt, {| seenMarkets := seenMarkets w; firstRun := b;
                   userPrefs := userPrefs w; trace := trace w |}).

Definition userPrefs_has (chatId : ChatId) : M bool :=
  fun w => (JsMap.has (userPrefs w) chatId, w).

Definition userPrefs_get (chatId : ChatId) : M (option Prefs) :=
  fun w => (JsMap.get (userPrefs w) chatId, w).

Definition userPrefs_set (chatId : ChatId) (prefs : Prefs) : M unit :=
  fun w => (tt, {| seenMarkets := seenMarkets w; firstRun := firstRun w;
                   userPrefs := JsMap.set (userPrefs w) chatId prefs;
                   trace := trace w |}).

Definition userPrefs_entries : M (list (ChatId * Prefs)) :=
  fun w => (userPrefs w, w).

(** ** Preference store *)

Definition getUserPrefs (chatId : ChatId) : M Prefs :=
  known <- userPrefs_has chatId ;;
  (if negb known then userPrefs_set chatId default_prefs else ret tt) ;;
  stored <- userPrefs_get chatId ;;
  ret (default ∅ stored).

Definition toggle_button (prefs : Prefs) (label category : string) : button :=
  ((if prefs_read prefs category then "✅" else "❌") +:+ " " +:+ label,
   "toggle_" +:+ category).

Definition getSettingsKeyboard (chatId : ChatId) : M keyboard :=
  prefs <- getUserPrefs chatId ;;
  ret [ [ toggle_button prefs "Politics" CATEGORIES.POLITICS;
          toggle_button prefs "Crypto" CATEGORIES.CRYPTO ];
        [ toggle_button prefs "Sports" CATEGORIES.SPORTS;
          toggle_button prefs "Business" CATEGORIES.BUSINESS ];
        [ toggle_button prefs "Science" CATEGORIES.SCIENCE;
          toggle_button prefs "Pop Culture" CATEGORIES.POPCULTURE ];
        [ toggle_button prefs "News" CATEGORIES.NEWS;
          toggle_button prefs "Other" CATEGORIES.OTHER ] ].

(** Line feed, the [\n] of the message literals. *)
Definition LF : string := String (ascii_of_nat 10) EmptyString.

(** The [/start] command. *)
Definition on_start (chatId : ChatId) : M unit :=
  getUserPrefs chatId ;;
  emit (EvLogSubscribed chatId) ;;
  kb <- getSettingsKeyboard chatId ;;
  emit (EvSendKeyboard chatId
          ("👴 **Ok Boomer New Market Alerts**" +:+ LF +:+ LF +:+
           "✅ You are now subscribed." +:+ LF +:+
           "Configure your alert preferences below:") kb).

(** The [/settings] command. *)
Definition on_settings (chatId : ChatId) : M unit :=
  kb <- getSettingsKeyboard chatId ;;
  emit (EvSendKeyboard chatId "⚙️ **Alert Preferences**" kb).

(** The [callback_query] handler, for a query from chat [chatId] carrying
    [data].  Line 129 flips the property on the object held by the map;
    line 130 stores that same object again. *)
Definition on_callback_query (chatId : ChatId) (data : string) : M unit :=
  if JsString.startsWith "toggle_" data then
    let category := JsString.remove_first "toggle_" data in
    prefs <- getUserPrefs chatId ;;
    let prefs := prefs_write prefs category (negb (prefs_read prefs category)) in
    userPrefs_set chatId prefs ;;
    userPrefs_set chatId prefs ;;
    kb <- getSettingsKeyboard chatId ;;
    emit (EvEditKeyboard chatId kb) ;;
    emit (EvAnswerCallback
            (category +:+ " alerts " +:+
             (if prefs_read prefs category then "enabled" else "disabled")))
  else ret tt.

(** ** Alert text *)

Definition categoryEmoji : list (string * string) :=
  [ (CATEGORIES.POLITICS, "🏛️"); (CATEGORIES.CRYPTO, "₿");
    (CATEGORIES.SPORTS, "⚽"); (CATEGORIES.BUSINESS, "💹");
    (CATEGORIES.SCIENCE, "🧪"); (CATEGORIES.POPCULTURE, "🎬");
    (CATEGORIES.NEWS, "📰"); (CATEGORIES.OTHER, "📊") ].

Fixpoint property {V} (obj : list (string * V)) (key : string) : option V :=
  match obj with
  | [] => None
  | (k, v) :: obj' => if String.eqb k key then Some v else property obj' key
  end.

Definition alert_message (market : Market) : string :=
  let question := js_or (question market) (JStr "Unknown Market") in
  let slug := js_or (slug market) (JStr "") in
  let url := if truthy slug
             then "https://polymarket.com/event/" +:+ ToString slug
             else "https://polymarket.com" in
  let category := detectCategory market in
  let emoji := default "undefined" (property categoryEmoji category) in
  "🆕 **JUST LISTED** " +:+ emoji +:+ LF +:+
  "━━━━━━━━━━━━━━" +:+ LF +:+
  "📊 **" +:+ ToString question +:+ "**" +:+ LF +:+ LF +:+
  "🔗 [View on Polymarket](" +:+ url +:+ ")".

(** ** The poll cycle and the router *)

Section Program.

Variable env : Env.

(** [try { await bot.sendMessage(chatId, msg, ...) } catch (error) { ... }] *)
Definition try_sendMessage (chatId : ChatId) (market : Market) (msg : string) : M unit :=
  fun w =>
    let outcome := bot_sendMessage env (trace w) chatId msg in
    let (_, w1) := emit (EvSendAlert chatId market msg) w in
    match outcome with
    | None => (tt, w1)
    | Some message => emit (EvLogSendFailed chatId message) w1
    end.

Definition sendAlert (market : Market) : M unit :=
  let category := detectCategory market in
  let msg := alert_message market in
  entries <- userPrefs_entries ;;
  forEach entries (fun '(chatId, prefs) =>
    if prefs_read prefs category
    then try_sendMessage chatId market msg
    else ret tt).

Definition fetchMarkets : M (list Market) :=
  fun w =>
    let outcome := axios_get env (trace w) in
    let (_, w1) := emit EvHttpGet w in
    match outcome with
    | FetchData data => (default [] data, w1)
    | FetchThrows message =>
        let (_, w2) := emit (EvLogFetchError message) w1 in ([], w2)
    end.

Definition monitorMarkets : M unit :=
  emit EvLogChecking ;;
  markets <- fetchMarkets ;;
  first <- read_firstRun ;;
  if first then
    forEach markets (fun m => seenMarkets_add (id m)) ;;
    write_firstRun false ;;
    n <- seenMarkets_size ;;
    emit (EvLogInitialized n)
  else
    forEach markets (fun market =>
      seen <- seenMarkets_has (id market) ;;
      if negb seen then
        emit (EvLogNewMarket market) ;;
        seenMarkets_add (id market) ;;
        sendAlert market
      else ret tt).

(** ** Process lifetime *)

(** What the event loop can run: a timer tick (also the call at line 237),
    a command, or a callback query. *)
Inductive action : Type :=
| Tick
| Start (chatId : ChatId)
| Settings (chatId : ChatId)
| CallbackQuery (chatId : ChatId) (data : string).

Definition handle (a : action) : M unit :=
  match a with
  | Tick => monitorMarkets
  | Start chatId => on_start chatId
  | Settings chatId => on_settings chatId
  | CallbackQuery chatId data => on_callback_query chatId data
  end.

Definition run (actions : list action) : M unit := forEach actions handle.

End Program.


(** ** Reading traces and states *)

(** [w] with [evs] appended to its trace. *)
Definition log_to (w : World) (evs : list event) : World :=
  {| seenMarkets := seenMarkets w; firstRun := firstRun w;
     userPrefs := userPrefs w; trace := trace w ++ evs |}.

(** [w] with [subscribers] as its map of preference records. *)
Definition with_userPrefs (w : World) (subscribers : list (ChatId * Prefs)) : World :=
  {| seenMarkets := seenMarkets w; firstRun := firstRun w;
     userPrefs := subscribers; trace := trace w |}.

(** The markets reported as new, in order. *)
Definition reported (evs : list event) : list Market :=
  omap (fun e => match e with EvLogNewMarket m => Some m | _ => None end) evs.

(** The alert deliveries attempted, in order. *)
Definition deliveries (evs : list event) : list (ChatId * Market * string) :=
  omap (fun e => match e with
                 | EvSendAlert c m msg => Some (c, m, msg)
                 | _ => None
                 end) evs.

(** The number of requests sent to the feed. *)
Definition requests (evs : list event) : nat :=
  length (List.filter (fun e => match e with EvHttpGet => true | _ => false end) evs).

(** The subscribers whose record reads as enabled for [topic], in the
    order of the map. *)
Definition recipients (subscribers : list (ChatId * Prefs)) (topic : string) : list ChatId :=
  List.map fst (List.filter (fun e => prefs_read (snd e) topic) subscribers).

(** The deliveries one alert for [market] consists of. *)
Definition alert_deliveries (subscribers : list (ChatId * Prefs)) (market : Market)
  : list (ChatId * Market * string) :=
  List.map (fun c => (c, market, alert_message market))
           (recipients subscribers (detectCategory market)).

(** The markets of a fetched list that a steady cycle reports, given the
    identifiers seen before it: each one whose identifier is neither seen
    before the cycle nor carried by an earlier market of the list. *)
Fixpoint new_markets (seen : gset MarketId) (markets : list Market) : list Market :=
  match markets with
  | [] => []
  | m :: markets' =>
      if bool_decide (id m ∈ seen) then new_markets seen markets'
      else m :: new_markets ({[id m]} ∪ seen) markets'
  end.

(** The toggle of the settings keyboard: the callback query its button
    for [topic] sends. *)
Definition toggle (chatId : ChatId) (topic : string) : M unit :=
  on_callback_query chatId ("toggle_" +:+ topic).

(** Every record has the eight topics as own properties. *)
Definition records_complete (w : World) : Prop :=
  forall chatId prefs, JsMap.get (userPrefs w) chatId = Some prefs ->
  forall topic, topic ∈ CATEGORIES.all -> is_Some (prefs !! topic).

(** No subscriber has two entries in the map. *)
Definition subscribers_unique (w : World) : Prop :=
  NoDup (List.map fst (userPrefs w)).

(** The list a poll cycle started in [w] gets from [fetchMarkets]: the
    request goes out after the cycle's first log line. *)
Definition fetched (env : Env) (w : World) : list Market :=
  fst (fetchMarkets env (exec (emit EvLogChecking) w)).

(** The log line of a failed request, if the cycle's request fails. *)
Definition fetch_error (env : Env) (w : World) : list event :=
  match axios_get env (trace w ++ [EvLogChecking]) with
  | FetchThrows message => [EvLogFetchError message]
  | FetchData _ => []
  end.

(** ** Predicates on handlers *)

(** From [w] to [w'] nothing was fetched, reported or alerted, and the
    seen set and [firstRun] stayed as they were. *)
Definition quiet (w w' : World) : Prop :=
  seenMarkets w' = seenMarkets w /\ firstRun w' = firstRun w /\
  exists evs, trace w' = trace w ++ evs /\
    reported evs = [] /\ deliveries evs = [] /\ requests evs = 0%nat.

Definition is_quiet {A} (c : M A) : Prop := forall w, quiet w (exec c w).

(** From [w] to [w'] the seen set only grew, no identifier was reported
    twice, every reported identifier was unseen in [w] and is seen in [w'],
    and every alert is about a reported market. *)
Definition diffed (w w' : World) : Prop :=
  exists evs, trace w' = trace w ++ evs /\
    seenMarkets w ⊆ seenMarkets w' /\
    NoDup (List.map id (reported evs)) /\
    (forall m, m ∈ reported evs -> (id m ∉ seenMarkets w) /\ id m ∈ seenMarkets w') /\
    (forall c m msg, (c, m, msg) ∈ deliveries evs -> m ∈ reported evs).

(** The invariant of the preference store. *)
Definition store_ok (w : World) : Prop :=
  records_complete w /\ subscribers_unique w.

(** The chats whose rejected delivery was logged, in order. *)
Definition failures (evs : list event) : list ChatId :=
  omap (fun e => match e with EvLogSendFailed c _ => Some c | _ => None end) evs.

(** A trace without the log lines of rejected deliveries. *)
Definition without_failures (evs : list event) : list event :=
  List.filter (fun e => match e with EvLogSendFailed _ _ => false | _ => true end) evs.

(** The number of timer ticks among [actions]. *)
Definition ticks (actions : list action) : nat :=
  length (List.filter (fun a => match a with Tick => true | _ => false end) actions).

(** The buttons of a keyboard, row by row. *)
Definition buttons (kb : keyboard) : list button := List.concat kb.

(** The button [getSettingsKeyboard] draws for [topic]. *)
Definition topic_button (prefs : Prefs) (topic : string) : button :=
  toggle_button prefs topic topic.

(** What one alert looks like in the trace when no delivery is rejected. *)
Definition alert_sends (subscribers : list (ChatId * Prefs)) (market : Market) : list event :=
  List.map (fun c => EvSendAlert c market (alert_message market))
           (recipients subscribers (detectCategory market)).

(** ** The profile script

    [update_bot_info.js]: three calls to the transport in a [try] block,
    each followed by a log line, then [process.exit(0)]; the [catch] block
    logs the error and calls [process.exit(1)]. *)
Module UpdateBotInfo.

Inductive api_call : Type :=
| SetMyName (name : string)
| SetMyDescription (description : string)
| SetMyShortDescription (short_description : string).

Inductive output : Type :=
| Log (line : string)                 (* console.log *)
| LogError (message : string)         (* console.error *)
| Call (c : api_call)                 (* a request to the transport *)
| Exit (code : Z).                    (* process.exit *)

(** How a step of the script ends: normally, by a thrown error, or with
    the process gone. *)
Inductive outcome (A : Type) : Type :=
| Done (a : A)
| Thrown (message : string)
| Exited.
Arguments Done {A} a.
Arguments Thrown {A} message.
Arguments Exited {A}.

(** The transport answers [Some message] when it rejects the call. *)
Definition Api : Type := list output -> api_call -> option string.

Definition P (A : Type) : Type := list output -> outcome A * list output.

Definition andThen {A B} (c : P A) (k : A -> P B) : P B :=
  fun h => match c h with
           | (Done a, h') => k a h'
           | (Thrown message, h') => (Thrown message, h')
           | (Exited, h') => (Exited, h')
           end.

Definition console_log (line : string) : P unit :=
  fun h => (Done tt, h ++ [Log line]).

Definition console_error (message : string) : P unit :=
  fun h => (Done tt, h ++ [LogError message]).

Definition await (api : Api) (c : api_call) : P unit :=
  fun h => (match api h c with
            | None => Done tt
            | Some message => Thrown message
            end, h ++ [Call c]).

Definition process_exit (code : Z) : P unit :=
  fun h => (Exited, h ++ [Exit code]).

Definition try_catch {A} (body : P A) (handler : string -> P A) : P A :=
  fun h => match body h with
           | (Thrown message, h') => handler message h'
           | r => r
           end.

Definition the_name : api_call := SetMyName "Ok Boomer".

Definition the_description : api_call :=
  SetMyDescription
    ("👴 Instant Notifictions for New Polymarket Listings." +:+ LF +:+ LF +:+
     "Be the first to know. Ok Boomer?").

Definition the_short_description : api_call :=
  SetMyShortDescription "👴 Instant Polymarket Alerts".

Definition updateProfile (api : Api) : P unit :=
  try_catch
    (andThen (console_log "Updating Bot Profile...") (fun _ =>
     andThen (await api the_name) (fun _ =>
     andThen (console_log "✅ Name set to: Ok Boomer") (fun _ =>
     andThen (await api the_description) (fun _ =>
     andThen (console_log "✅ Description updated.") (fun _ =>
     andThen (await api the_short_description) (fun _ =>
     andThen (console_log "✅ Short Description updated.") (fun _ =>
     andThen (console_log
                "🎉 SUCCESS! You may need to restart your Telegram app to see changes.")
             (fun _ =>
     process_exit 0)))))))))
    (fun message =>
       andThen (console_error message) (fun _ => process_exit 1)).

(** The requests, the exit codes and the error lines of a run. *)
Definition calls (tr : list output) : list api_call :=
  omap (fun o => match o with Call c => Some c | _ => None end) tr.

Definition exits (tr : list output) : list Z :=
  omap (fun o => match o with Exit code => Some code | _ => None end) tr.

Definition errors (tr : list output) : list string :=
  omap (fun o => match o with LogError message => Some message | _ => None end) tr.

Definition confirmations (tr : list output) : nat :=
  length (List.filter (fun o => match o with
                               | Log line => JsString.startsWith "✅" line
                               | _ => false
                               end) tr).

(** A transport that accepts the name and rejects the description. *)
Definition rejects_description : Api :=
  fun _ c => match c with
             | SetMyDescription _ => Some "429 Too Many Requests"
             | _ => None
             end.

End UpdateBotInfo.

(** ** Sample data *)

Module Sample.

Definition bitcoin_surge : Market :=
  {| id := IdNum 7; question := JStr "bitcoin price surge"; group := JUndefined;
     tags := JUndefined; slug := JUndefined; title := JUndefined; rest := [] |}.

Definition sunny_lisbon : Market :=
  {| id := IdStr "m-12"; question := JStr "Will it be sunny in Lisbon?";
     group := JNull; tags := JArr [JStr "Daily"; JNull]; slug := JStr "sunny-lisbon";
     title := JUndefined; rest := [] |}.

(** A market that carries its text in [title] only. *)
Definition title_only : Market :=
  {| id := IdNum 9; question := JUndefined; group := JUndefined;
     tags := JUndefined; slug := JUndefined;
     title := JStr "Will Bitcoin hit $100k?"; rest := [] |}.

(** The store after subscriber 42 has sent [/start] and switched Sports
    off. *)
Definition subscribed : World :=
  exec (bind (on_start 42) (fun _ => toggle 42 CATEGORIES.SPORTS)) initial.

Definition fed_cut : Market :=
  {| id := IdNum 2; question := JStr "Will the Fed cut rates?"; group := JUndefined;
     tags := JUndefined; slug := JStr "fed-cut"; title := JUndefined; rest := [] |}.

Definition bitcoin_100k : Market :=
  {| id := IdNum 1; question := JStr "Will Bitcoin hit $100k?"; group := JUndefined;
     tags := JUndefined; slug := JUndefined; title := JUndefined; rest := [] |}.

(** A feed whose first request times out and which lists two markets from
    then on, and a transport that rejects every message to chat 42. *)
Definition flaky : Env :=
  {| axios_get := fun history =>
       if Nat.eqb (requests history) 0
       then FetchThrows "timeout of 5000ms exceeded"
       else FetchData (Some [bitcoin_100k; fed_cut]);
     bot_sendMessage := fun _ chatId _ =>
       if Z.eqb chatId 42 then Some "403 Forbidden: bot was blocked by the user"
       else None |}.

(** Process start, then [/start] from 42 and from 7. *)
Definition two_subscribers : World :=
  exec (bind (on_start 42) (fun _ => on_start 7)) initial.

(** A store in the steady state: market 1 is seen, the two subscribers are
    those above, and the history starts here. *)
Definition steady : World :=
  {| seenMarkets := {[IdNum 1]}; firstRun := false;
     userPrefs := userPrefs two_subscribers; trace := [] |}.

(** A feed that lists the two markets at every request, and a transport
    that delivers everything. *)
Definition listing : Env :=
  {| axios_get := fun _ => FetchData (Some [bitcoin_100k; fed_cut]);
     bot_sendMessage := fun _ _ _ => None |}.

(** The two subscribers after a first cycle whose request failed. *)
Definition empty_baseline : World :=
  exec (monitorMarkets flaky) two_subscribers.

(** The scenario of a feed that lists [bitcoin_100k] at the first request
    and both markets afterwards, with a transport that delivers. *)
Definition growing : Env :=
  {| axios_get := fun history =>
       if Nat.eqb (requests history) 0
       then FetchData (Some [bitcoin_100k])
       else FetchData (Some [bitcoin_100k; fed_cut]);
     bot_sendMessage := fun _ _ _ => None |}.

(** Process start, two subscriptions, 42 switches Business off, next tick. *)
Definition scenario : list action :=
  [Tick; Start 7; Start 42; CallbackQuery 42 "toggle_Business"; Tick].

(** A market tagged by the feed, with a question that names no keyword. *)
Definition tagged : Market :=
  {| id := IdStr "0x51"; question := JStr "Which chain flips first?"; group := JStr "";
     tags := JArr [JStr "Layer 2"; JStr "Ethereum"]; slug := JStr "chain-flip";
     title := JUndefined; rest := [] |}.

Definition openai : Market :=
  {| id := IdNum 30; question := JStr "Who will acquire OpenAI"; group := JNull;
     tags := JArr []; slug := JStr ""; title := JUndefined; rest := [] |}.

End Sample.

(** * Properties *)

(** ** Strings *)

Lemma startsWith_spec (p s : string) :
  JsString.startsWith p s = true <-> exists post, s = p +:+ post.
Proof.
  revert s. induction p as [|a p IH]; intros s; simpl.
  - split; [intros _; exists s; reflexivity | reflexivity].
  - destruct s as [|b s].
    + split; [discriminate | intros [post H]; discriminate].
    + rewrite andb_true_iff, Ascii.eqb_eq, IH. split.
      * intros [-> [post ->]]. exists post. reflexivity.
      * intros [post H]. injection H as -> ->. split; [reflexivity | eauto].
Qed.

(** [includes] is the substring test. *)
Lemma includes_spec (s k : string) :
  JsString.includes s k = true <-> exists pre post, s = pre +:+ k +:+ post.
Proof.
  induction s as [|c s IH]; simpl; rewrite orb_true_iff, startsWith_spec.
  - split.
    + intros [[post H] | H]; [exists "", post; exact H | discriminate].
    + intros [pre [post H]]. left. destruct pre; [eauto | discriminate].
  - rewrite IH. split.
    + intros [[post H] | [pre [post H]]].
      * exists "", post. exact H.
      * exists (String c pre), post. simpl. now rewrite H.
    + intros [pre [post H]]. destruct pre as [|c' pre]; simpl in H.
      * left. eauto.
      * right. injection H as _ H. eauto.
Qed.

Lemma toLowerCase_app (a b : string) :
  JsString.toLowerCase (a +:+ b) = JsString.toLowerCase a +:+ JsString.toLowerCase b.
Proof.
  induction a as [|c a IH]; [reflexivity|].
  change (String c a +:+ b) with (String c (a +:+ b)). simpl. now rewrite IH.
Qed.

(** An occurrence survives lowering, up to the case of its letters. *)
Lemma includes_toLowerCase (s k : string) :
  JsString.includes s k = true ->
  JsString.includes (JsString.toLowerCase s) (JsString.toLowerCase k) = true.
Proof.
  rewrite !includes_spec. intros (pre & post & ->).
  exists (JsString.toLowerCase pre), (JsString.toLowerCase post).
  now rewrite !toLowerCase_app.
Qed.

(** ** Evaluation on concrete inputs *)

Example includes_is_naive : JsString.includes "together" "eth" = true.
Proof. reflexivity. Qed.

Example includes_needs_the_blank : JsString.includes "openai" "ai " = false.
Proof. reflexivity. Qed.

Example toLowerCase_letters_only :
  JsString.toLowerCase "Will the FED cut Rates by 0.25%?" = "will the fed cut rates by 0.25%?".
Proof. reflexivity. Qed.

Example replace_strips_the_prefix :
  JsString.remove_first "toggle_" "toggle_Pop Culture" = "Pop Culture".
Proof. reflexivity. Qed.

Example ToString_array :
  ToString (JArr [JStr "NBA"; JNull; JArr [JStr "x"; JUndefined]; JStr "Finals"])
  = "NBA,,x,,Finals".
Proof. reflexivity. Qed.

Example text_of_absent_fields :
  category_text Sample.title_only = "undefined  ".
Proof. reflexivity. Qed.

Example fed_cut_is_business : detectCategory Sample.fed_cut = CATEGORIES.BUSINESS.
Proof. reflexivity. Qed.

Example inherited_key_reads_truthy :
  prefs_read default_prefs "constructor" = true /\
  prefs_read (prefs_write default_prefs "constructor" false) "constructor" = false /\
  prefs_write default_prefs "__proto__" false = default_prefs.
Proof. repeat split. Qed.

(** The end-to-end scenario: the first cycle is the baseline, the second
    reports market 2 alone, as Business, to subscriber 7 alone. *)
Example end_to_end :
  let evs := emitted (run Sample.growing Sample.scenario) initial in
  reported evs = [Sample.fed_cut] /\
  deliveries evs = [(7%Z, Sample.fed_cut, alert_message Sample.fed_cut)] /\
  seenMarkets (exec (run Sample.growing Sample.scenario) initial)
    = {[IdNum 1; IdNum 2]}.
Proof. vm_compute. repeat split. Qed.

(** ** Classifier *)

Lemma keywords_lowercase :
  Forall (fun k => JsString.toLowerCase k = k) ClassifierSpec.all_keywords.
Proof. apply (bool_decide_unpack _). vm_compute. exact I. Qed.

Lemma crypto_keywords_all (k : string) :
  k ∈ ClassifierSpec.keywords CATEGORIES.CRYPTO -> k ∈ ClassifierSpec.all_keywords.
Proof.
  intros H.
  change ClassifierSpec.all_keywords
    with (ClassifierSpec.keywords CATEGORIES.CRYPTO ++
          List.concat (List.map snd (List.tl ClassifierSpec.rules))).
  apply elem_of_app. now left.
Qed.

(** The cascade of [detectCategory] is the first-match evaluation of the
    rule table. *)
Lemma detectCategory_classify (market : Market) :
  detectCategory market = ClassifierSpec.classify market.
Proof.
  unfold detectCategory, ClassifierSpec.classify.
  generalize (category_text market). intros text.
  unfold ClassifierSpec.rules, ClassifierSpec.first_match,
    ClassifierSpec.rule_matches, existsb, snd, fst.
  rewrite !orb_false_r, !orb_assoc. reflexivity.
Qed.

Lemma first_match_skip (text : string) (before after : list (string * list string)) :
  Forall (fun r => ClassifierSpec.rule_matches text r = false) before ->
  ClassifierSpec.first_match text (before ++ after) =
  ClassifierSpec.first_match text after.
Proof.
  induction 1 as [|r before Hr _ IH]; simpl; [reflexivity|].
  now rewrite Hr.
Qed.

Lemma first_match_none (text : string) (rs : list (string * list string)) :
  Forall (fun r => ClassifierSpec.rule_matches text r = false) rs ->
  ClassifierSpec.first_match text rs = CATEGORIES.OTHER.
Proof.
  intros H. rewrite <- (app_nil_r rs). now rewrite first_match_skip.
Qed.

Lemma rule_matches_true (text : string) (r : string * list string) (k : string) :
  k ∈ snd r -> JsString.includes text k = true ->
  ClassifierSpec.rule_matches text r = true.
Proof.
  intros Hin%list_elem_of_In Hk. apply existsb_exists. eauto.
Qed.

Lemma rule_matches_false (text : string) (r : string * list string) :
  (forall k, k ∈ snd r -> JsString.includes text k = false) ->
  ClassifierSpec.rule_matches text r = false.
Proof.
  intros H. unfold ClassifierSpec.rule_matches.
  induction (snd r) as [|k ks IH]; simpl; [reflexivity|].
  rewrite H by left. apply IH. intros k' Hk'. apply H. now right.
Qed.

Lemma detectCategory_in_all (market : Market) :
  detectCategory market ∈ CATEGORIES.all.
Proof.
  unfold detectCategory, CATEGORIES.all.
  repeat match goal with
         | |- context [if ?b then _ else _] => destruct b
         end; set_solver.
Qed.

Lemma all_categories_NoDup : NoDup CATEGORIES.all.
Proof.
  apply (bool_decide_unpack _). vm_compute. exact I.
Qed.

(** C3. Rule precedence.  The cascade of [detectCategory] evaluates the
    rules in the order Crypto, Politics, Sports, Business, Science,
    Pop Culture, News and returns the topic of the first rule one of whose
    keywords occurs in the text, Other when no rule matches.  A text with
    both a Crypto keyword and a Business keyword, lowered or as
    concatenated, is Crypto and not Business, and so is every market whose
    question is "bitcoin price surge". *)
Theorem C3_rule_precedence :
  List.map fst ClassifierSpec.rules =
    [ CATEGORIES.CRYPTO; CATEGORIES.POLITICS; CATEGORIES.SPORTS;
      CATEGORIES.BUSINESS; CATEGORIES.SCIENCE; CATEGORIES.POPCULTURE;
      CATEGORIES.NEWS ]
  /\ (forall market before r after,
        ClassifierSpec.rules = before ++ r :: after ->
        Forall (fun r' => ClassifierSpec.rule_matches (category_text market) r' = false) before ->
        ClassifierSpec.rule_matches (category_text market) r = true ->
        detectCategory market = fst r)
  /\ (forall market,
        Forall (fun r => ClassifierSpec.rule_matches (category_text market) r = false)
          ClassifierSpec.rules ->
        detectCategory market = CATEGORIES.OTHER)
  /\ (forall market kc kb,
        kc ∈ ClassifierSpec.keywords CATEGORIES.CRYPTO ->
        kb ∈ ClassifierSpec.keywords CATEGORIES.BUSINESS ->
        JsString.includes (category_text market) kc = true ->
        JsString.includes (category_text market) kb = true ->
        detectCategory market = CATEGORIES.CRYPTO /\
        detectCategory market <> CATEGORIES.BUSINESS)
  /\ (forall market kc kb,
        kc ∈ ClassifierSpec.keywords CATEGORIES.CRYPTO ->
        kb ∈ ClassifierSpec.keywords CATEGORIES.BUSINESS ->
        JsString.includes (concat_text market) kc = true ->
        JsString.includes (concat_text market) kb = true ->
        detectCategory market = CATEGORIES.CRYPTO)
  /\ (forall market,
        question market = JStr "bitcoin price surge" ->
        detectCategory market = CATEGORIES.CRYPTO).
Proof.
  assert (forall market kc,
            kc ∈ ClassifierSpec.keywords CATEGORIES.CRYPTO ->
            JsString.includes (category_text market) kc = true ->
            detectCategory market = CATEGORIES.CRYPTO) as Hcrypto.
  { intros market kc Hkc Hinc.
    rewrite detectCategory_classify. unfold ClassifierSpec.classify, ClassifierSpec.rules.
    simpl. erewrite rule_matches_true; [reflexivity | exact Hkc | exact Hinc]. }
  split; [reflexivity|]. split; [|split; [|split; [|split]]].
  - intros market before r after Hsplit Hbefore Hr.
    rewrite detectCategory_classify. unfold ClassifierSpec.classify.
    rewrite Hsplit, first_match_skip by assumption. simpl. now rewrite Hr.
  - intros market Hnone. rewrite detectCategory_classify.
    now apply first_match_none.
  - intros market kc kb Hkc _ Hinc _.
    rewrite (Hcrypto market kc Hkc Hinc). split; [reflexivity | discriminate].
  - intros market kc kb Hkc _ Hinc _. apply (Hcrypto market kc Hkc).
    unfold category_text.
    pose proof (proj1 (Forall_forall _ _) keywords_lowercase kc (crypto_keywords_all _ Hkc))
      as Hlow.
    rewrite <- Hlow. now apply includes_toLowerCase.
  - intros market Hq. unfold detectCategory.
    assert (JsString.includes (category_text market) "bitcoin" = true) as ->; [|reflexivity].
    unfold category_text, concat_text. rewrite Hq. reflexivity.
Qed.

Lemma C3_rule_precedence_witness :
  detectCategory Sample.bitcoin_surge = CATEGORIES.CRYPTO /\
  detectCategory Sample.bitcoin_surge <> CATEGORIES.BUSINESS.
Proof.
  apply (proj1 (proj2 (proj2 (proj2 C3_rule_precedence)))
           Sample.bitcoin_surge "bitcoin" "price").
  - vm_compute. set_solver.
  - vm_compute. set_solver.
  - reflexivity.
  - reflexivity.
Defined.

(** C4. [detectCategory] is total and deterministic: every market gets
    exactly one of the eight topics, markets with the same text (in
    particular with the same question, group and tags) get the same topic,
    and a text in which no keyword of any rule occurs gets Other. *)
Theorem C4_classify_total_deterministic (market : Market) :
  (exists c, detectCategory market = c /\ c ∈ CATEGORIES.all /\
             forall c', detectCategory market = c' -> c' = c)
  /\ length CATEGORIES.all = 8%nat /\ NoDup CATEGORIES.all
  /\ (forall market', category_text market' = category_text market ->
        detectCategory market' = detectCategory market)
  /\ (forall market', question market' = question market ->
        group market' = group market -> tags market' = tags market ->
        detectCategory market' = detectCategory market)
  /\ ((forall k, k ∈ ClassifierSpec.all_keywords ->
         JsString.includes (category_text market) k = false) ->
      detectCategory market = CATEGORIES.OTHER).
Proof.
  split; [|split; [reflexivity|split; [exact all_categories_NoDup|split; [|split]]]].
  - exists (detectCategory market).
    split; [reflexivity|]. split; [apply detectCategory_in_all | congruence].
  - intros market' Htext. unfold detectCategory. now rewrite Htext.
  - intros market' Hq Hg Ht. unfold detectCategory, category_text, concat_text.
    now rewrite Hq, Hg, Ht.
  - intros Hnone. rewrite detectCategory_classify. apply first_match_none.
    apply Forall_forall. intros r Hr. apply rule_matches_false.
    intros k Hk. apply Hnone. unfold ClassifierSpec.all_keywords.
    apply list_elem_of_In, in_concat. exists (snd r).
    split; [apply in_map, list_elem_of_In, Hr | apply list_elem_of_In, Hk].
Qed.

Lemma C4_classify_total_deterministic_witness :
  detectCategory Sample.sunny_lisbon = CATEGORIES.OTHER.
Proof.
  apply (proj2 (proj2 (proj2 (proj2 (proj2
           (C4_classify_total_deterministic Sample.sunny_lisbon)))))).
  intros k Hk. apply list_elem_of_In in Hk. vm_compute in Hk.
  repeat (destruct Hk as [<- | Hk]; [reflexivity|]). destruct Hk.
Defined.

(** C10. The topic depends on the question, the group and the tags only:
    markets that agree on these three get the same topic whatever their
    id, slug, title and remaining properties, and a market whose text sits
    in its title alone is classified as if the title were not there. *)
Theorem C10_classification_reads_three_fields :
  (forall m1 m2,
     question m1 = question m2 -> group m1 = group m2 -> tags m1 = tags m2 ->
     detectCategory m1 = detectCategory m2)
  /\ (forall m i s t r,
        detectCategory
          {| id := i; question := question m; group := group m; tags := tags m;
             slug := s; title := t; rest := r |} = detectCategory m)
  /\ (forall i s t r,
        detectCategory
          {| id := i; question := JUndefined; group := JUndefined;
             tags := JUndefined; slug := s; title := t; rest := r |}
        = CATEGORIES.OTHER).
Proof.
  split; [|split].
  - intros m1 m2 Hq Hg Ht. unfold detectCategory, category_text, concat_text.
    now rewrite Hq, Hg, Ht.
  - intros m i s t r. reflexivity.
  - intros i s t r. reflexivity.
Qed.

Lemma C10_classification_reads_three_fields_witness :
  detectCategory Sample.title_only =
  detectCategory
    {| id := IdNum 9; question := JUndefined; group := JUndefined;
       tags := JUndefined; slug := JUndefined; title := JStr "Lunch menu";
       rest := [("volume", JStr "12")] |}.
Proof.
  apply (proj1 C10_classification_reads_three_fields); reflexivity.
Defined.

(** ** Worlds and traces *)

Lemma log_to_nil (w : World) : log_to w [] = w.
Proof. destruct w. unfold log_to. simpl. now rewrite app_nil_r. Qed.

Lemma log_to_app (w : World) (a b : list event) :
  log_to (log_to w a) b = log_to w (a ++ b).
Proof. unfold log_to. simpl. now rewrite app_assoc. Qed.

Lemma emitted_of_trace {A} (c : M A) (w : World) (evs : list event) :
  trace (exec c w) = trace w ++ evs -> emitted c w = evs.
Proof. intros H. unfold emitted. rewrite H. apply drop_app_length. Qed.

Lemma exec_bind {A B} (c : M A) (k : A -> M B) (w : World) :
  exec (bind c k) w = exec (k (fst (c w))) (exec c w).
Proof. unfold exec, bind. destruct (c w). reflexivity. Qed.

Lemma bind_run {A B} (c : M A) (k : A -> M B) (w : World) :
  bind c k w = k (fst (c w)) (snd (c w)).
Proof. unfold bind. destruct (c w). reflexivity. Qed.

Lemma reported_app (a b : list event) : reported (a ++ b) = reported a ++ reported b.
Proof. apply omap_app. Qed.

Lemma deliveries_app (a b : list event) :
  deliveries (a ++ b) = deliveries a ++ deliveries b.
Proof. apply omap_app. Qed.

Lemma requests_app (a b : list event) : requests (a ++ b) = (requests a + requests b)%nat.
Proof. unfold requests. now rewrite List.filter_app, length_app. Qed.

(** ** The subscriber map *)

Lemma JsMap_get_set_eq {V} (m : list (ChatId * V)) (k : ChatId) (v : V) :
  JsMap.get (JsMap.set m k v) k = Some v.
Proof.
  induction m as [|[k' v'] m IH]; simpl.
  - now rewrite Z.eqb_refl.
  - destruct (Z.eqb k' k) eqn:E; simpl; now rewrite E.
Qed.

Lemma JsMap_get_set_ne {V} (m : list (ChatId * V)) (k k' : ChatId) (v : V) :
  k <> k' -> JsMap.get (JsMap.set m k v) k' = JsMap.get m k'.
Proof.
  intros Hne. induction m as [|[k0 v0] m IH]; simpl.
  - destruct (Z.eqb_spec k k'); [contradiction | reflexivity].
  - destruct (Z.eqb_spec k0 k) as [->|]; simpl.
    + destruct (Z.eqb_spec k k'); [contradiction | reflexivity].
    + now rewrite IH.
Qed.

Lemma JsMap_set_set {V} (m : list (ChatId * V)) (k : ChatId) (v v' : V) :
  JsMap.set (JsMap.set m k v) k v' = JsMap.set m k v'.
Proof.
  induction m as [|[k0 v0] m IH]; simpl.
  - now rewrite Z.eqb_refl.
  - destruct (Z.eqb k0 k) eqn:E; simpl; rewrite E; [reflexivity | now rewrite IH].
Qed.

Lemma JsMap_set_same {V} (m : list (ChatId * V)) (k : ChatId) (v : V) :
  JsMap.get m k = Some v -> JsMap.set m k v = m.
Proof.
  induction m as [|[k0 v0] m IH]; simpl; [discriminate|].
  destruct (Z.eqb k0 k) eqn:E.
  - now intros [= ->].
  - intros H. now rewrite IH.
Qed.

Lemma JsMap_set_keys {V} (m : list (ChatId * V)) (k : ChatId) (v : V) :
  List.map fst (JsMap.set m k v) =
  if JsMap.has m k then List.map fst m else List.map fst m ++ [k].
Proof.
  unfold JsMap.has. induction m as [|[k0 v0] m IH]; simpl; [reflexivity|].
  destruct (Z.eqb k0 k) eqn:E; simpl; [reflexivity|].
  rewrite IH. now destruct (JsMap.get m k).
Qed.

Lemma JsMap_get_keys {V} (m : list (ChatId * V)) (k : ChatId) :
  JsMap.get m k = None -> k ∉ List.map fst m.
Proof.
  induction m as [|[k0 v0] m IH]; simpl; [set_solver|].
  destruct (Z.eqb_spec k0 k); [discriminate|].
  intros H. apply not_elem_of_cons. split; [congruence | now apply IH].
Qed.

Lemma JsMap_get_elem {V} (m : list (ChatId * V)) (k : ChatId) (v : V) :
  JsMap.get m k = Some v -> (k, v) ∈ m.
Proof.
  induction m as [|[k0 v0] m IH]; simpl; [discriminate|].
  destruct (Z.eqb_spec k0 k) as [->|].
  - intros [= ->]. left.
  - intros H. right. now apply IH.
Qed.

Lemma JsMap_elem_get {V} (m : list (ChatId * V)) (k : ChatId) (v : V) :
  NoDup (List.map fst m) -> (k, v) ∈ m -> JsMap.get m k = Some v.
Proof.
  induction m as [|[k0 v0] m IH]; simpl; [set_solver|].
  intros Hnd Hin. apply NoDup_cons in Hnd as [Hk0 Hnd].
  apply elem_of_cons in Hin as [[= -> ->] | Hin].
  - now rewrite Z.eqb_refl.
  - destruct (Z.eqb_spec k0 k) as [->|]; [|now apply IH].
    exfalso. apply Hk0. apply list_elem_of_In, in_map_iff.
    exists (k, v). split; [reflexivity | now apply list_elem_of_In].
Qed.

(** ** Preference store *)

Lemma getUserPrefs_known (chatId : ChatId) (w : World) (prefs : Prefs) :
  JsMap.get (userPrefs w) chatId = Some prefs ->
  getUserPrefs chatId w = (prefs, w).
Proof.
  intros H. unfold getUserPrefs, bind, userPrefs_has, userPrefs_get, JsMap.has, ret.
  rewrite H. simpl. now rewrite H.
Qed.

Lemma getUserPrefs_fresh (chatId : ChatId) (w : World) :
  JsMap.get (userPrefs w) chatId = None ->
  getUserPrefs chatId w =
  (default_prefs, with_userPrefs w (JsMap.set (userPrefs w) chatId default_prefs)).
Proof.
  intros H. unfold getUserPrefs, bind, userPrefs_has, userPrefs_get, JsMap.has, ret.
  rewrite H. simpl. now rewrite JsMap_get_set_eq.
Qed.

(** What a toggle does to the store: the record of [chatId], created if
    need be, has [topic] flipped. *)
Lemma toggle_userPrefs (chatId : ChatId) (topic : string) (w : World) :
  let prefs := fst (getUserPrefs chatId w) in
  userPrefs (exec (toggle chatId topic) w) =
  JsMap.set (userPrefs (exec (getUserPrefs chatId) w)) chatId
    (prefs_write prefs topic (negb (prefs_read prefs topic))).
Proof.
  unfold toggle, on_callback_query, exec. simpl.
  change (String.append "" topic) with topic.
  unfold bind at 1. destruct (getUserPrefs chatId w) as [prefs w1] eqn:E1. simpl.
  set (prefs' := prefs_write prefs topic (negb (prefs_read prefs topic))).
  unfold bind, userPrefs_set, getSettingsKeyboard. simpl.
  unfold bind. erewrite getUserPrefs_known by (simpl; apply JsMap_get_set_eq).
  simpl. apply JsMap_set_set.
Qed.

Lemma getUserPrefs_stored (chatId : ChatId) (w : World) :
  JsMap.get (userPrefs (exec (getUserPrefs chatId) w)) chatId =
  Some (fst (getUserPrefs chatId w)).
Proof.
  unfold exec. destruct (JsMap.get (userPrefs w) chatId) as [prefs|] eqn:E.
  - now rewrite (getUserPrefs_known _ _ _ E).
  - rewrite (getUserPrefs_fresh _ _ E). simpl. apply JsMap_get_set_eq.
Qed.

Lemma getUserPrefs_other (chatId other : ChatId) (w : World) :
  chatId <> other ->
  JsMap.get (userPrefs (exec (getUserPrefs chatId) w)) other =
  JsMap.get (userPrefs w) other.
Proof.
  intros Hne. unfold exec.
  destruct (JsMap.get (userPrefs w) chatId) as [prefs|] eqn:E.
  - now rewrite (getUserPrefs_known _ _ _ E).
  - rewrite (getUserPrefs_fresh _ _ E). simpl. now apply JsMap_get_set_ne.
Qed.

Lemma topic_cases (P : string -> Prop) :
  P CATEGORIES.POLITICS -> P CATEGORIES.CRYPTO -> P CATEGORIES.SPORTS ->
  P CATEGORIES.BUSINESS -> P CATEGORIES.SCIENCE -> P CATEGORIES.POPCULTURE ->
  P CATEGORIES.NEWS -> P CATEGORIES.OTHER ->
  forall topic, topic ∈ CATEGORIES.all -> P topic.
Proof.
  intros ? ? ? ? ? ? ? ? topic H. unfold CATEGORIES.all in H.
  repeat (apply elem_of_cons in H as [-> | H]; [assumption|]).
  now apply elem_of_nil in H.
Qed.

Lemma default_prefs_enabled (topic : string) :
  topic ∈ CATEGORIES.all -> default_prefs !! topic = Some true.
Proof. revert topic. apply topic_cases; reflexivity. Qed.

Lemma topic_not_proto (topic : string) :
  topic ∈ CATEGORIES.all -> String.eqb topic "__proto__" = false.
Proof. revert topic. apply topic_cases; reflexivity. Qed.

Lemma prefs_read_own (prefs : Prefs) (key : string) (b : bool) :
  prefs !! key = Some b -> prefs_read prefs key = b.
Proof. intros H. unfold prefs_read. now rewrite H. Qed.

(** Flipping an own flag twice gives the record back. *)
Lemma prefs_flip_twice (prefs : Prefs) (topic : string) :
  topic ∈ CATEGORIES.all -> is_Some (prefs !! topic) ->
  let once := prefs_write prefs topic (negb (prefs_read prefs topic)) in
  prefs_write once topic (negb (prefs_read once topic)) = prefs.
Proof.
  intros Htopic [b Hb]. simpl. unfold prefs_write.
  rewrite (topic_not_proto _ Htopic), (prefs_read_own _ _ _ Hb).
  rewrite (prefs_read_own _ _ (negb b)) by apply lookup_insert_eq.
  rewrite insert_insert_eq, negb_involutive. now apply insert_id.
Qed.

(** A write under a key outside the enumeration leaves the eight flags. *)
Lemma prefs_write_frame (prefs : Prefs) (key topic : string) (v : bool) :
  key <> topic -> prefs_write prefs key v !! topic = prefs !! topic.
Proof.
  intros Hne. unfold prefs_write. destruct (String.eqb key "__proto__"); [reflexivity|].
  now apply lookup_insert_ne.
Qed.

Lemma getUserPrefs_complete (chatId : ChatId) (w : World) (topic : string) :
  records_complete w -> topic ∈ CATEGORIES.all ->
  is_Some (fst (getUserPrefs chatId w) !! topic).
Proof.
  intros Hw Htopic. destruct (JsMap.get (userPrefs w) chatId) as [prefs|] eqn:E.
  - rewrite (getUserPrefs_known _ _ _ E). simpl. eapply Hw; eassumption.
  - rewrite (getUserPrefs_fresh _ _ E). simpl.
    rewrite default_prefs_enabled by assumption. eauto.
Qed.

(** ** The seen set *)

Lemma seen_after_add (x : MarketId) (ids : list MarketId) (seen : gset MarketId) :
  list_to_set ids ∪ ({[x]} ∪ seen) = list_to_set (x :: ids) ∪ seen.
Proof.
  apply set_eq. intros y. simpl.
  rewrite !elem_of_union, elem_of_singleton. tauto.
Qed.

Lemma seen_after_skip (x : MarketId) (ids : list MarketId) (seen : gset MarketId) :
  x ∈ seen -> list_to_set ids ∪ seen = list_to_set (x :: ids) ∪ seen.
Proof.
  intros Hx. apply set_eq. intros y. simpl.
  rewrite !elem_of_union, elem_of_singleton. split; [tauto|].
  intros [[-> | H] | H]; auto.
Qed.

(** ** The router *)

Section Cycle.

Variable env : Env.

Lemma try_sendMessage_run (chatId : ChatId) (market : Market) (msg : string) (w : World) :
  exists evs,
    try_sendMessage env chatId market msg w = (tt, log_to w evs) /\
    deliveries evs = [(chatId, market, msg)] /\
    reported evs = [] /\ requests evs = 0%nat.
Proof.
  unfold try_sendMessage. simpl.
  destruct (bot_sendMessage env (trace w) chatId msg) as [message|].
  - exists [EvSendAlert chatId market msg; EvLogSendFailed chatId message].
    unfold emit, log_to. simpl. rewrite <- app_assoc. auto.
  - exists [EvSendAlert chatId market msg]. auto.
Qed.

Lemma sendAlert_loop (market : Market) (category msg : string)
    (entries : list (ChatId * Prefs)) (w : World) :
  exists evs,
    forEach entries
      (fun '(chatId, prefs) =>
         if prefs_read prefs category
         then try_sendMessage env chatId market msg
         else ret tt) w = (tt, log_to w evs) /\
    deliveries evs =
      List.map (fun c => (c, market, msg)) (recipients entries category) /\
    reported evs = [] /\ requests evs = 0%nat.
Proof.
  revert w. induction entries as [|[chatId prefs] entries IH]; intros w.
  - exists []. simpl. unfold ret. now rewrite log_to_nil.
  - simpl. unfold bind, recipients. simpl.
    destruct (prefs_read prefs category).
    + destruct (try_sendMessage_run chatId market msg w) as (e1 & -> & Hd1 & Hr1 & Hq1).
      destruct (IH (log_to w e1)) as (e2 & -> & Hd2 & Hr2 & Hq2).
      exists (e1 ++ e2).
      rewrite log_to_app, deliveries_app, reported_app, requests_app, Hd1, Hd2, Hr1, Hr2, Hq1, Hq2.
      auto.
    + unfold ret. apply IH.
Qed.

Lemma sendAlert_run (market : Market) (w : World) :
  exists evs,
    sendAlert env market w = (tt, log_to w evs) /\
    deliveries evs = alert_deliveries (userPrefs w) market /\
    reported evs = [] /\ requests evs = 0%nat.
Proof.
  unfold sendAlert, bind, userPrefs_entries, alert_deliveries.
  apply sendAlert_loop.
Qed.

(** ** The poll cycle *)

Lemma fetchMarkets_run (w : World) :
  exists evs,
    snd (fetchMarkets env w) = log_to w (EvHttpGet :: evs) /\
    reported evs = [] /\ deliveries evs = [] /\ requests evs = 0%nat /\
    match axios_get env (trace w) with
    | FetchThrows message =>
        fst (fetchMarkets env w) = [] /\ evs = [EvLogFetchError message]
    | FetchData data =>
        fst (fetchMarkets env w) = default [] data /\ evs = []
    end.
Proof.
  unfold fetchMarkets. simpl. destruct (axios_get env (trace w)) as [message|data].
  - exists [EvLogFetchError message]. unfold log_to. simpl.
    rewrite <- app_assoc. repeat split.
  - exists []. repeat split.
Qed.

Lemma baseline_loop (markets : list Market) (w : World) :
  exists w',
    forEach markets (fun m => seenMarkets_add (id m)) w = (tt, w') /\
    seenMarkets w' = list_to_set (List.map id markets) ∪ seenMarkets w /\
    firstRun w' = firstRun w /\ userPrefs w' = userPrefs w /\ trace w' = trace w.
Proof.
  revert w. induction markets as [|m markets IH]; intros w.
  - exists w. simpl. unfold ret. repeat split. now rewrite (left_id_L ∅ (∪)).
  - simpl. rewrite bind_run.
    destruct (IH (snd (seenMarkets_add (id m) w))) as (w' & -> & Hs & Hf & Hu & Ht).
    exists w'. simpl in *. repeat split; try assumption.
    rewrite Hs. apply seen_after_add.
Qed.

Lemma steady_loop (markets : list Market) (w : World) :
  exists w' evs,
    forEach markets
      (fun market =>
         bind (seenMarkets_has (id market)) (fun seen =>
           if negb seen then
             bind (emit (EvLogNewMarket market)) (fun _ =>
               bind (seenMarkets_add (id market)) (fun _ => sendAlert env market))
           else ret tt)) w = (tt, w') /\
    trace w' = trace w ++ evs /\
    seenMarkets w' = list_to_set (List.map id markets) ∪ seenMarkets w /\
    firstRun w' = firstRun w /\ userPrefs w' = userPrefs w /\
    reported evs = new_markets (seenMarkets w) markets /\
    deliveries evs =
      flat_map (alert_deliveries (userPrefs w)) (new_markets (seenMarkets w) markets) /\
    requests evs = 0%nat.
Proof.
  revert w. induction markets as [|m markets IH]; intros w.
  - exists w, []. simpl. unfold ret. rewrite app_nil_r. repeat split.
    now rewrite (left_id_L ∅ (∪)).
  - simpl. rewrite !bind_run. simpl.
    destruct (bool_decide_reflect (id m ∈ seenMarkets w)) as [Hseen|Hnew]; simpl.
    + destruct (IH w) as (w' & evs & -> & Ht & Hs & Hf & Hu & Hr & Hd & Hq).
      exists w', evs. repeat split; try assumption.
      rewrite Hs. now apply seen_after_skip.
    + rewrite !bind_run. simpl.
      match goal with |- context [sendAlert env m ?w1] =>
        destruct (sendAlert_run m w1) as (e1 & He1 & Hd1 & Hr1 & Hq1)
      end.
      rewrite He1. simpl.
      match goal with |- context [forEach markets _ ?w2] =>
        destruct (IH w2) as (w' & evs & -> & Ht & Hs & Hf & Hu & Hr & Hd & Hq)
      end.
      simpl in *.
      exists w', ([EvLogNewMarket m] ++ e1 ++ evs). repeat split; try assumption.
      * rewrite Ht, <- !app_assoc. reflexivity.
      * rewrite Hs. apply seen_after_add.
      * rewrite !reported_app, Hr1, Hr. reflexivity.
      * rewrite !deliveries_app, Hd1, Hd. reflexivity.
      * rewrite !requests_app, Hq1, Hq. reflexivity.
Qed.

Lemma fetched_cases (w : World) :
  match axios_get env (trace w ++ [EvLogChecking]) with
  | FetchThrows _ => fetched env w = []
  | FetchData data => fetched env w = default [] data
  end.
Proof.
  unfold fetched, fetchMarkets, exec. simpl.
  now destruct (axios_get env (trace w ++ [EvLogChecking])).
Qed.

Lemma fetch_error_quiet (w : World) :
  reported (fetch_error env w) = [] /\ deliveries (fetch_error env w) = [] /\
  requests (fetch_error env w) = 0%nat.
Proof.
  unfold fetch_error. now destruct (axios_get env (trace w ++ [EvLogChecking])).
Qed.

Lemma monitorMarkets_fetch (w : World) :
  fetchMarkets env (snd (emit EvLogChecking w)) =
  (fetched env w, log_to w (EvLogChecking :: EvHttpGet :: fetch_error env w)).
Proof.
  unfold fetched, fetch_error, fetchMarkets, exec, log_to. simpl.
  destruct (axios_get env (trace w ++ [EvLogChecking])); simpl;
    rewrite <- ?app_assoc; reflexivity.
Qed.

(** The first cycle: every fetched identifier is recorded, nothing else
    happens. *)
Lemma monitorMarkets_first (w : World) :
  firstRun w = true ->
  let w' := exec (monitorMarkets env) w in
  seenMarkets w' = list_to_set (List.map id (fetched env w)) ∪ seenMarkets w /\
  firstRun w' = false /\ userPrefs w' = userPrefs w /\
  trace w' = trace w ++ [EvLogChecking; EvHttpGet] ++ fetch_error env w ++
             [EvLogInitialized (size (seenMarkets w'))].
Proof.
  intros Hfirst. unfold exec, monitorMarkets.
  rewrite bind_run, bind_run, monitorMarkets_fetch. simpl fst. simpl snd.
  rewrite bind_run. unfold read_firstRun at 1. simpl fst. simpl snd.
  simpl firstRun. rewrite Hfirst.
  rewrite bind_run.
  destruct (baseline_loop (fetched env w)
              (log_to w (EvLogChecking :: EvHttpGet :: fetch_error env w)))
    as (w1 & -> & Hs & Hf & Hu & Ht).
  simpl. rewrite Hs, Hu, Ht. simpl. rewrite <- !app_assoc. repeat split.
Qed.

(** A later cycle: the fetched list is diffed against the seen set. *)
Lemma monitorMarkets_steady (w : World) :
  firstRun w = false ->
  let w' := exec (monitorMarkets env) w in
  exists evs,
    seenMarkets w' = list_to_set (List.map id (fetched env w)) ∪ seenMarkets w /\
    firstRun w' = false /\ userPrefs w' = userPrefs w /\
    trace w' = trace w ++ [EvLogChecking; EvHttpGet] ++ fetch_error env w ++ evs /\
    reported evs = new_markets (seenMarkets w) (fetched env w) /\
    deliveries evs =
      flat_map (alert_deliveries (userPrefs w))
               (new_markets (seenMarkets w) (fetched env w)) /\
    requests evs = 0%nat.
Proof.
  intros Hfirst. unfold exec, monitorMarkets.
  rewrite bind_run, bind_run, monitorMarkets_fetch. simpl fst. simpl snd.
  rewrite bind_run. unfold read_firstRun at 1. simpl fst. simpl snd.
  simpl firstRun. rewrite Hfirst.
  destruct (steady_loop (fetched env w)
              (log_to w (EvLogChecking :: EvHttpGet :: fetch_error env w)))
    as (w1 & evs & -> & Ht & Hs & Hf & Hu & Hr & Hd & Hq).
  exists evs. simpl in *. rewrite Hs, Hf, Hu, Ht, Hfirst, <- !app_assoc.
  repeat split; assumption.
Qed.

End Cycle.

(** ** Diffing against the seen set *)

Lemma new_markets_fresh (seen : gset MarketId) (markets : list Market) (m : Market) :
  m ∈ new_markets seen markets -> m ∈ markets /\ id m ∉ seen.
Proof.
  revert seen. induction markets as [|m0 markets IH]; intros seen; simpl.
  - intros H. now apply elem_of_nil in H.
  - destruct (bool_decide_reflect (id m0 ∈ seen)) as [Hseen|Hnew].
    + intros H. destruct (IH _ H). split; [now right | assumption].
    + intros H. apply elem_of_cons in H as [-> | H].
      * split; [left | assumption].
      * destruct (IH _ H) as [Hin Hid]. split; [now right|].
        intros Hs. apply Hid, elem_of_union. now right.
Qed.

Lemma new_markets_NoDup (seen : gset MarketId) (markets : list Market) :
  NoDup (List.map id (new_markets seen markets)).
Proof.
  revert seen. induction markets as [|m0 markets IH]; intros seen; simpl.
  - constructor.
  - destruct (bool_decide (id m0 ∈ seen)); [apply IH|].
    simpl. constructor; [|apply IH].
    intros Hin. apply list_elem_of_In, in_map_iff in Hin as (m & Hid & Hm).
    apply list_elem_of_In, new_markets_fresh in Hm as [_ Hm].
    apply Hm, elem_of_union. left. apply elem_of_singleton. congruence.
Qed.

Lemma new_markets_covers (seen : gset MarketId) (markets : list Market) (m : Market) :
  m ∈ markets -> id m ∉ seen ->
  exists m', m' ∈ new_markets seen markets /\ id m' = id m.
Proof.
  revert seen. induction markets as [|m0 markets IH]; intros seen Hin Hid; simpl.
  - now apply elem_of_nil in Hin.
  - destruct (bool_decide_reflect (id m0 ∈ seen)) as [Hseen|Hnew].
    + apply elem_of_cons in Hin as [-> | Hin]; [contradiction | now apply IH].
    + destruct (decide (id m0 = id m)) as [Heq|Hne].
      * exists m0. split; [left | assumption].
      * apply elem_of_cons in Hin as [-> | Hin]; [contradiction|].
        destruct (IH ({[id m0]} ∪ seen) Hin) as (m' & Hm' & Hid').
        { rewrite elem_of_union, elem_of_singleton. intros [?|?]; congruence. }
        exists m'. split; [now right | assumption].
Qed.

Lemma new_markets_all (seen : gset MarketId) (markets : list Market) :
  NoDup (List.map id markets) -> (forall m, m ∈ markets -> id m ∉ seen) ->
  new_markets seen markets = markets.
Proof.
  revert seen. induction markets as [|m0 markets IH]; intros seen Hnd Hnew; simpl.
  - reflexivity.
  - simpl in Hnd. apply NoDup_cons in Hnd as [Hm0 Hnd].
    rewrite bool_decide_eq_false_2 by (apply Hnew; left).
    f_equal. apply IH; [assumption|].
    intros m Hm. rewrite elem_of_union, elem_of_singleton. intros [Heq | Hs].
    + apply Hm0. rewrite <- Heq. apply list_elem_of_In, in_map, list_elem_of_In, Hm.
    + revert Hs. apply Hnew. now right.
Qed.

Lemma recipients_spec (subscribers : list (ChatId * Prefs)) (topic : string) (c : ChatId) :
  c ∈ recipients subscribers topic <->
  exists prefs, (c, prefs) ∈ subscribers /\ prefs_read prefs topic = true.
Proof.
  unfold recipients. rewrite list_elem_of_In, in_map_iff. split.
  - intros ([c' prefs] & <- & Hin). apply filter_In in Hin as [Hin Hread].
    exists prefs. split; [now apply list_elem_of_In | assumption].
  - intros (prefs & Hin & Hread). exists (c, prefs). split; [reflexivity|].
    apply filter_In. split; [now apply list_elem_of_In | assumption].
Qed.

Lemma recipients_NoDup (subscribers : list (ChatId * Prefs)) (topic : string) :
  NoDup (List.map fst subscribers) -> NoDup (recipients subscribers topic).
Proof.
  unfold recipients. induction subscribers as [|[c prefs] subscribers IH]; simpl.
  - constructor.
  - intros Hnd. apply NoDup_cons in Hnd as [Hc Hnd].
    destruct (prefs_read prefs topic); simpl; [|now apply IH].
    constructor; [|now apply IH].
    intros Hin. apply Hc. apply list_elem_of_In, in_map_iff in Hin as (e & He & Hin).
    apply filter_In in Hin as [Hin _].
    apply list_elem_of_In, in_map_iff. eauto.
Qed.

Lemma alert_deliveries_spec (subscribers : list (ChatId * Prefs)) (market : Market)
    (c : ChatId) (m : Market) (msg : string) :
  (c, m, msg) ∈ alert_deliveries subscribers market <->
  m = market /\ msg = alert_message market /\
  c ∈ recipients subscribers (detectCategory market).
Proof.
  unfold alert_deliveries. rewrite list_elem_of_In, in_map_iff. split.
  - intros (c' & [= -> -> ->] & Hin). now rewrite list_elem_of_In.
  - intros (-> & -> & Hin). exists c. now rewrite <- list_elem_of_In.
Qed.

Lemma flat_deliveries_spec (subscribers : list (ChatId * Prefs)) (markets : list Market)
    (c : ChatId) (m : Market) (msg : string) :
  (c, m, msg) ∈ flat_map (alert_deliveries subscribers) markets <->
  m ∈ markets /\ msg = alert_message m /\
  c ∈ recipients subscribers (detectCategory m).
Proof.
  rewrite list_elem_of_In, in_flat_map. split.
  - intros (m' & Hm' & Hin). apply list_elem_of_In, alert_deliveries_spec in Hin
      as (-> & -> & Hc). now rewrite list_elem_of_In.
  - intros (Hm & -> & Hc). exists m. split; [now apply list_elem_of_In|].
    apply list_elem_of_In, alert_deliveries_spec. auto.
Qed.

(** ** Claims about the poll cycle *)

(** C1. Baseline suppression.  A cycle run while [firstRun] holds reports
    no market and sends no alert, whatever it fetched, and when it ends
    the identifier of every fetched market is in the seen set. *)
Theorem C1_baseline_suppression (env : Env) (w : World) :
  firstRun w = true ->
  let evs := emitted (monitorMarkets env) w in
  let w' := exec (monitorMarkets env) w in
  reported evs = [] /\ deliveries evs = []
  /\ (forall m, m ∈ fetched env w -> id m ∈ seenMarkets w')
  /\ seenMarkets w' = list_to_set (List.map id (fetched env w)) ∪ seenMarkets w
  /\ firstRun w' = false.
Proof.
  intros Hfirst evs w'.
  destruct (monitorMarkets_first env w Hfirst) as (Hs & Hf & Hu & Ht).
  fold w' in Hs, Hf, Hu, Ht.
  apply emitted_of_trace in Ht. fold evs in Ht.
  destruct (fetch_error_quiet env w) as (Hr & Hd & _).
  rewrite Ht. simpl. rewrite reported_app, deliveries_app, Hr, Hd.
  repeat split; try assumption.
  intros m Hm. rewrite Hs. apply elem_of_union. left.
  apply elem_of_list_to_set, list_elem_of_In, in_map, list_elem_of_In, Hm.
Qed.

Lemma C1_baseline_suppression_witness :
  reported (emitted (monitorMarkets Sample.listing) Sample.two_subscribers) = [] /\
  deliveries (emitted (monitorMarkets Sample.listing) Sample.two_subscribers) = [] /\
  id Sample.fed_cut ∈
    seenMarkets (exec (monitorMarkets Sample.listing) Sample.two_subscribers).
Proof.
  destruct (C1_baseline_suppression Sample.listing Sample.two_subscribers)
    as (Hr & Hd & Hseen & _).
  - reflexivity.
  - split; [exact Hr|]. split; [exact Hd|].
    apply (Hseen Sample.fed_cut). apply list_elem_of_In. vm_compute. right. left.
    reflexivity.
Defined.

(** C6. Fetch failure.  When the request of a cycle throws, [fetchMarkets]
    returns the empty list, the cycle reports no market and sends no alert,
    the seen set and the preference records are as before, exactly one
    request went out, and the cycle completes. *)
Theorem C6_fetch_failure_recovery (env : Env) (w : World) (message : string) :
  axios_get env (trace w ++ [EvLogChecking]) = FetchThrows message ->
  let evs := emitted (monitorMarkets env) w in
  let w' := exec (monitorMarkets env) w in
  fetched env w = []
  /\ reported evs = [] /\ deliveries evs = []
  /\ seenMarkets w' = seenMarkets w
  /\ userPrefs w' = userPrefs w
  /\ requests evs = 1%nat
  /\ EvLogFetchError message ∈ evs
  /\ monitorMarkets env w = (tt, w').
Proof.
  intros Hthrow evs w'.
  assert (fetched env w = []) as Hfetched
    by (pose proof (fetched_cases env w) as H; now rewrite Hthrow in H).
  assert (fetch_error env w = [EvLogFetchError message]) as Herr
    by (unfold fetch_error; now rewrite Hthrow).
  assert (monitorMarkets env w = (tt, w')) as Hdone
    by (unfold w', exec; now destruct (monitorMarkets env w) as [[] ?]).
  split; [exact Hfetched|].
  destruct (firstRun w) eqn:Hfirst.
  - destruct (monitorMarkets_first env w Hfirst) as (Hs & Hf & Hu & Ht).
    fold w' in Hs, Hf, Hu, Ht. rewrite Hfetched in Hs. simpl in Hs.
    rewrite (left_id_L ∅ (∪)) in Hs.
    apply emitted_of_trace in Ht. fold evs in Ht. rewrite Herr in Ht.
    rewrite Ht. simpl. repeat split; try assumption. apply list_elem_of_In. right. right. left. reflexivity.
  - destruct (monitorMarkets_steady env w Hfirst) as (l & Hs & Hf & Hu & Ht & Hr & Hd & Hq).
    fold w' in Hs, Hf, Hu, Ht. rewrite Hfetched in Hs, Hr, Hd. simpl in Hs, Hr, Hd.
    rewrite (left_id_L ∅ (∪)) in Hs.
    apply emitted_of_trace in Ht. fold evs in Ht. rewrite Herr in Ht.
    rewrite Ht.
    change ([EvLogChecking; EvHttpGet] ++ [EvLogFetchError message] ++ l)
      with ([EvLogChecking; EvHttpGet; EvLogFetchError message] ++ l).
    rewrite reported_app, deliveries_app, requests_app, Hr, Hd, Hq.
    repeat split; try assumption.
    apply list_elem_of_In, in_or_app. left. right. right. left. reflexivity.
Qed.

Lemma C6_fetch_failure_recovery_witness :
  seenMarkets (exec (monitorMarkets Sample.flaky) Sample.steady) = seenMarkets Sample.steady /\
  requests (emitted (monitorMarkets Sample.flaky) Sample.steady) = 1%nat.
Proof.
  destruct (C6_fetch_failure_recovery Sample.flaky Sample.steady
              "timeout of 5000ms exceeded") as (_ & _ & _ & Hs & _ & Hq & _).
  - reflexivity.
  - split; assumption.
Defined.

(** ** Commands and callbacks leave the tracker alone *)

Lemma quiet_refl (w : World) : quiet w w.
Proof.
  repeat split. exists []. now rewrite app_nil_r.
Qed.

Lemma quiet_trans (w1 w2 w3 : World) : quiet w1 w2 -> quiet w2 w3 -> quiet w1 w3.
Proof.
  intros (Hs1 & Hf1 & e1 & Ht1 & Hr1 & Hd1 & Hq1) (Hs2 & Hf2 & e2 & Ht2 & Hr2 & Hd2 & Hq2).
  split; [congruence|]. split; [congruence|]. exists (e1 ++ e2).
  rewrite Ht2, Ht1, <- app_assoc, reported_app, deliveries_app, requests_app.
  rewrite Hr1, Hr2, Hd1, Hd2, Hq1, Hq2. auto.
Qed.

Lemma is_quiet_ret {A} (a : A) : is_quiet (ret a).
Proof. intros w. apply quiet_refl. Qed.

Lemma is_quiet_bind {A B} (c : M A) (k : A -> M B) :
  is_quiet c -> (forall a, is_quiet (k a)) -> is_quiet (bind c k).
Proof.
  intros Hc Hk w. rewrite exec_bind. eapply quiet_trans; [apply Hc | apply Hk].
Qed.

Lemma is_quiet_userPrefs_has (chatId : ChatId) : is_quiet (userPrefs_has chatId).
Proof. intros w. apply quiet_refl. Qed.

Lemma is_quiet_userPrefs_get (chatId : ChatId) : is_quiet (userPrefs_get chatId).
Proof. intros w. apply quiet_refl. Qed.

Lemma is_quiet_userPrefs_set (chatId : ChatId) (prefs : Prefs) :
  is_quiet (userPrefs_set chatId prefs).
Proof.
  intros w. repeat split. exists []. unfold exec. simpl. now rewrite app_nil_r.
Qed.

Lemma is_quiet_emit (e : event) :
  reported [e] = [] -> deliveries [e] = [] -> requests [e] = 0%nat ->
  is_quiet (emit e).
Proof. intros Hr Hd Hq w. repeat split. exists [e]. auto. Qed.

Create HintDb quiet.
#[local] Hint Resolve is_quiet_ret is_quiet_userPrefs_has is_quiet_userPrefs_get
  is_quiet_userPrefs_set : quiet.
#[local] Hint Extern 2 (is_quiet (bind _ _)) => apply is_quiet_bind; [|intros ?] : quiet.
#[local] Hint Extern 2 (is_quiet (emit _)) => apply is_quiet_emit; reflexivity : quiet.
#[local] Hint Extern 3 (is_quiet (if ?b then _ else _)) => destruct b : quiet.

Lemma is_quiet_getUserPrefs (chatId : ChatId) : is_quiet (getUserPrefs chatId).
Proof. unfold getUserPrefs. auto 10 with quiet. Qed.

#[local] Hint Resolve is_quiet_getUserPrefs : quiet.

Lemma is_quiet_getSettingsKeyboard (chatId : ChatId) :
  is_quiet (getSettingsKeyboard chatId).
Proof. unfold getSettingsKeyboard. auto 10 with quiet. Qed.

#[local] Hint Resolve is_quiet_getSettingsKeyboard : quiet.

Lemma is_quiet_on_start (chatId : ChatId) : is_quiet (on_start chatId).
Proof. unfold on_start. auto 10 with quiet. Qed.

Lemma is_quiet_on_settings (chatId : ChatId) : is_quiet (on_settings chatId).
Proof. unfold on_settings. auto 10 with quiet. Qed.

Lemma is_quiet_on_callback_query (chatId : ChatId) (data : string) :
  is_quiet (on_callback_query chatId data).
Proof. unfold on_callback_query. auto 12 with quiet. Qed.

(** ** One handler at a time *)

Lemma quiet_diffed (w w' : World) : quiet w w' -> diffed w w'.
Proof.
  intros (Hs & _ & evs & Ht & Hr & Hd & _). exists evs.
  rewrite Hr, Hd, Hs. split; [assumption|]. split; [reflexivity|].
  split; [constructor|]. split.
  - intros m H. now apply elem_of_nil in H.
  - intros c m msg H. now apply elem_of_nil in H.
Qed.

Lemma diffed_trans (w1 w2 w3 : World) : diffed w1 w2 -> diffed w2 w3 -> diffed w1 w3.
Proof.
  intros (e1 & Ht1 & Hs1 & Hn1 & Hr1 & Hd1) (e2 & Ht2 & Hs2 & Hn2 & Hr2 & Hd2).
  exists (e1 ++ e2). rewrite Ht2, Ht1, <- app_assoc, reported_app, deliveries_app.
  split; [reflexivity|]. split; [etransitivity; eassumption|]. split; [|split].
  - rewrite List.map_app. apply NoDup_app. split; [assumption|]. split; [|assumption].
    intros i Hi1 Hi2.
    apply list_elem_of_In, in_map_iff in Hi1 as (m1 & <- & Hm1).
    apply list_elem_of_In, in_map_iff in Hi2 as (m2 & Heq & Hm2).
    apply list_elem_of_In, Hr1 in Hm1 as [_ Hseen].
    apply list_elem_of_In, Hr2 in Hm2 as [Hnew _].
    apply Hnew. now rewrite Heq.
  - intros m Hm. apply elem_of_app in Hm as [Hm | Hm].
    + destruct (Hr1 m Hm) as [Hnew Hseen]. split; [assumption | now apply Hs2].
    + destruct (Hr2 m Hm) as [Hnew Hseen]. split; [|assumption].
      intros H. apply Hnew. now apply Hs1.
  - intros c m msg Hd. apply elem_of_app. apply elem_of_app in Hd as [Hd | Hd].
    + left. eapply Hd1, Hd.
    + right. eapply Hd2, Hd.
Qed.

Section Lifetime.

Variable env : Env.

Lemma monitorMarkets_diffed (w : World) : diffed w (exec (monitorMarkets env) w).
Proof.
  destruct (fetch_error_quiet env w) as (Her & Hed & _).
  destruct (firstRun w) eqn:Hfirst.
  - destruct (monitorMarkets_first env w Hfirst) as (Hs & _ & _ & Ht).
    eexists. split; [exact Ht|].
    simpl. rewrite reported_app, deliveries_app, Her, Hed. simpl.
    split; [rewrite Hs; apply union_subseteq_r|]. split; [constructor|]. split.
    + intros m H. now apply elem_of_nil in H.
    + intros c m msg H. now apply elem_of_nil in H.
  - destruct (monitorMarkets_steady env w Hfirst) as (evs & Hs & _ & _ & Ht & Hr & Hd & _).
    eexists. split; [exact Ht|].
    simpl. rewrite reported_app, deliveries_app, Her, Hed, Hr, Hd. simpl.
    split; [rewrite Hs; apply union_subseteq_r|].
    split; [apply new_markets_NoDup|]. split.
    + intros m Hm. apply new_markets_fresh in Hm as [Hin Hnew]. split; [assumption|].
      rewrite Hs. apply elem_of_union. left.
      apply elem_of_list_to_set, list_elem_of_In, in_map, list_elem_of_In, Hin.
    + intros c m msg H. now apply flat_deliveries_spec in H as (Hm & _).
Qed.

Lemma handle_diffed (a : action) (w : World) : diffed w (exec (handle env a) w).
Proof.
  destruct a as [|chatId|chatId|chatId data]; simpl.
  - apply monitorMarkets_diffed.
  - apply quiet_diffed, is_quiet_on_start.
  - apply quiet_diffed, is_quiet_on_settings.
  - apply quiet_diffed, is_quiet_on_callback_query.
Qed.

Lemma run_diffed (actions : list action) (w : World) :
  diffed w (exec (run env actions) w).
Proof.
  revert w. induction actions as [|a actions IH]; intros w.
  - apply quiet_diffed, quiet_refl.
  - unfold run. simpl. rewrite exec_bind.
    eapply diffed_trans; [apply handle_diffed | apply IH].
Qed.

End Lifetime.

(** ** The invariant of the preference store *)

Lemma store_ok_initial : store_ok initial.
Proof.
  split.
  - intros chatId prefs H. discriminate.
  - constructor.
Qed.

Lemma store_ok_same (w w' : World) :
  userPrefs w' = userPrefs w -> store_ok w -> store_ok w'.
Proof.
  unfold store_ok, records_complete, subscribers_unique. now intros ->.
Qed.

Lemma store_ok_set (w w' : World) (chatId : ChatId) (prefs : Prefs) :
  userPrefs w' = JsMap.set (userPrefs w) chatId prefs ->
  (forall topic, topic ∈ CATEGORIES.all -> is_Some (prefs !! topic)) ->
  store_ok w -> store_ok w'.
Proof.
  intros Hset Hprefs [Hcomplete Hunique]. split.
  - intros c p. rewrite Hset. destruct (Z.eq_dec chatId c) as [<-|Hne].
    + rewrite JsMap_get_set_eq. now intros [= <-].
    + rewrite JsMap_get_set_ne by assumption. apply Hcomplete.
  - unfold subscribers_unique. rewrite Hset, JsMap_set_keys. unfold JsMap.has.
    destruct (JsMap.get (userPrefs w) chatId) eqn:E; [assumption|].
    apply NoDup_app. split; [assumption|]. split; [|apply NoDup_singleton].
    intros c Hc Hc'. apply list_elem_of_singleton in Hc' as ->.
    now apply (JsMap_get_keys _ _ E).
Qed.

Lemma store_ok_getUserPrefs (chatId : ChatId) (w : World) :
  store_ok w -> store_ok (exec (getUserPrefs chatId) w).
Proof.
  intros Hw. unfold exec. destruct (JsMap.get (userPrefs w) chatId) as [prefs|] eqn:E.
  - now rewrite (getUserPrefs_known _ _ _ E).
  - rewrite (getUserPrefs_fresh _ _ E). simpl.
    eapply store_ok_set; [reflexivity | | exact Hw].
    intros topic Ht. rewrite default_prefs_enabled by assumption. eauto.
Qed.

Lemma store_ok_toggle (chatId : ChatId) (key : string) (w : World) :
  store_ok w -> store_ok (exec (toggle chatId key) w).
Proof.
  intros Hw. eapply store_ok_set.
  - apply toggle_userPrefs.
  - intros topic Ht. destruct (String.eqb_spec key topic) as [->|Hne].
    + unfold prefs_write. rewrite (topic_not_proto _ Ht), lookup_insert_eq. eauto.
    + rewrite prefs_write_frame by assumption.
      apply getUserPrefs_complete; [apply Hw | assumption].
  - now apply store_ok_getUserPrefs.
Qed.

Lemma on_callback_query_cases (chatId : ChatId) (data : string) :
  on_callback_query chatId data = ret tt \/
  exists key, on_callback_query chatId data = toggle chatId key.
Proof.
  destruct (JsString.startsWith "toggle_" data) eqn:E.
  - right. apply startsWith_spec in E as [key ->]. exists key. reflexivity.
  - left. unfold on_callback_query. now rewrite E.
Qed.

Lemma userPrefs_on_start (chatId : ChatId) (w : World) :
  userPrefs (exec (on_start chatId) w) = userPrefs (exec (getUserPrefs chatId) w).
Proof.
  unfold on_start, getSettingsKeyboard, exec. rewrite !bind_run. simpl.
  erewrite getUserPrefs_known by (simpl; apply getUserPrefs_stored).
  reflexivity.
Qed.

Lemma userPrefs_on_settings (chatId : ChatId) (w : World) :
  userPrefs (exec (on_settings chatId) w) = userPrefs (exec (getUserPrefs chatId) w).
Proof.
  unfold on_settings, getSettingsKeyboard, exec. rewrite !bind_run. reflexivity.
Qed.

Section Reachable.

Variable env : Env.

Lemma userPrefs_monitorMarkets (w : World) :
  userPrefs (exec (monitorMarkets env) w) = userPrefs w.
Proof.
  destruct (firstRun w) eqn:Hfirst.
  - now destruct (monitorMarkets_first env w Hfirst) as (_ & _ & Hu & _).
  - now destruct (monitorMarkets_steady env w Hfirst) as (evs & _ & _ & Hu & _).
Qed.

Lemma store_ok_handle (a : action) (w : World) :
  store_ok w -> store_ok (exec (handle env a) w).
Proof.
  intros Hw. destruct a as [|chatId|chatId|chatId data]; simpl.
  - eapply store_ok_same; [apply userPrefs_monitorMarkets | exact Hw].
  - eapply store_ok_same; [apply userPrefs_on_start | now apply store_ok_getUserPrefs].
  - eapply store_ok_same; [apply userPrefs_on_settings | now apply store_ok_getUserPrefs].
  - destruct (on_callback_query_cases chatId data) as [-> | [key ->]].
    + exact Hw.
    + now apply store_ok_toggle.
Qed.

(** Every state the process reaches has complete records and one entry
    per subscriber. *)
Lemma store_ok_run (actions : list action) (w : World) :
  store_ok w -> store_ok (exec (run env actions) w).
Proof.
  revert w. induction actions as [|a actions IH]; intros w Hw.
  - exact Hw.
  - unfold run. simpl. rewrite exec_bind. apply IH. now apply store_ok_handle.
Qed.

End Reachable.

(** ** Claims about the tracker *)

(** C2. At-most-once reporting.  A cycle neither reports nor alerts a
    market whose identifier is already in the seen set.  Over any sequence
    of cycles, commands and callbacks, no identifier is reported twice;
    every reported identifier was unseen before and is seen afterwards;
    alerts are only about reported markets; and a steady cycle reports
    exactly the fetched markets whose identifier is new at their turn. *)
Theorem C2_at_most_once_alerting (env : Env) :
  (forall w i, i ∈ seenMarkets w ->
     let evs := emitted (monitorMarkets env) w in
     (forall m, m ∈ reported evs -> id m <> i) /\
     (forall c m msg, (c, m, msg) ∈ deliveries evs -> id m <> i))
  /\ (forall actions w,
        let evs := emitted (run env actions) w in
        let w' := exec (run env actions) w in
        NoDup (List.map id (reported evs)) /\
        (forall m, m ∈ reported evs -> (id m ∉ seenMarkets w) /\ id m ∈ seenMarkets w') /\
        (forall c m msg, (c, m, msg) ∈ deliveries evs -> m ∈ reported evs) /\
        seenMarkets w ⊆ seenMarkets w')
  /\ (forall w, firstRun w = false ->
        reported (emitted (monitorMarkets env) w) =
        new_markets (seenMarkets w) (fetched env w)).
Proof.
  split; [|split].
  - intros w i Hi evs.
    destruct (monitorMarkets_diffed env w) as (l & Ht & _ & _ & Hr & Hd).
    apply emitted_of_trace in Ht. fold evs in Ht. subst l.
    assert (forall m, m ∈ reported evs -> id m <> i) as Hrep.
    { intros m Hm Heq. destruct (Hr m Hm) as [Hnew _]. apply Hnew. now rewrite Heq. }
    split; [exact Hrep|]. intros c m msg Hin. eapply Hrep, Hd, Hin.
  - intros actions w evs w'.
    destruct (run_diffed env actions w) as (l & Ht & Hs & Hn & Hr & Hd).
    apply emitted_of_trace in Ht. fold evs in Ht. subst l.
    repeat split; try assumption; apply Hr; assumption.
  - intros w Hfirst.
    destruct (monitorMarkets_steady env w Hfirst) as (l & _ & _ & _ & Ht & Hr & _).
    apply emitted_of_trace in Ht. rewrite Ht.
    destruct (fetch_error_quiet env w) as (Her & _).
    simpl. now rewrite reported_app, Her.
Qed.

Lemma C2_at_most_once_alerting_witness :
  Sample.bitcoin_100k ∉ reported (emitted (monitorMarkets Sample.listing) Sample.steady).
Proof.
  intros Hin.
  assert (IdNum 1 ∈ seenMarkets Sample.steady) as Hseen
    by (apply (bool_decide_unpack _); vm_compute; exact I).
  destruct (proj1 (C2_at_most_once_alerting Sample.listing) Sample.steady (IdNum 1) Hseen)
    as [Hrep _].
  apply (Hrep Sample.bitcoin_100k Hin). reflexivity.
Defined.

(** C9. A first cycle that fetched nothing, the failed request included,
    leaves [firstRun] false and the seen set empty.  In a cycle run in such
    a state every fetched market has its identifier reported as new and
    alerted to every subscriber enabled for its topic; when the fetched
    identifiers are distinct the cycle reports and alerts the fetched list
    itself, in order. *)
Theorem C9_failed_first_fetch_empty_baseline (env : Env) :
  (forall w, firstRun w = true -> seenMarkets w = ∅ -> fetched env w = [] ->
     let w1 := exec (monitorMarkets env) w in
     firstRun w1 = false /\ seenMarkets w1 = ∅)
  /\ (forall w message,
        axios_get env (trace w ++ [EvLogChecking]) = FetchThrows message ->
        fetched env w = [])
  /\ (forall w, firstRun w = false -> seenMarkets w = ∅ ->
        let evs := emitted (monitorMarkets env) w in
        (forall m, m ∈ fetched env w ->
           exists m', m' ∈ reported evs /\ id m' = id m /\
             forall c, c ∈ recipients (userPrefs w) (detectCategory m') ->
               (c, m', alert_message m') ∈ deliveries evs)
        /\ (NoDup (List.map id (fetched env w)) ->
            reported evs = fetched env w /\
            deliveries evs =
              flat_map (alert_deliveries (userPrefs w)) (fetched env w))).
Proof.
  split; [|split].
  - intros w Hfirst Hempty Hnothing w1.
    destruct (monitorMarkets_first env w Hfirst) as (Hs & Hf & _).
    fold w1 in Hs, Hf. split; [exact Hf|].
    rewrite Hs, Hnothing, Hempty. simpl. apply (left_id_L ∅ (∪)).
  - intros w message Hthrow. pose proof (fetched_cases env w) as H.
    now rewrite Hthrow in H.
  - intros w Hfirst Hempty evs.
    destruct (monitorMarkets_steady env w Hfirst) as (l & _ & _ & _ & Ht & Hr & Hd & _).
    apply emitted_of_trace in Ht. fold evs in Ht.
    destruct (fetch_error_quiet env w) as (Her & Hed & _).
    assert (reported evs = new_markets ∅ (fetched env w)) as Hrep
      by (rewrite Ht; simpl; now rewrite reported_app, Her, Hr, Hempty).
    assert (deliveries evs =
            flat_map (alert_deliveries (userPrefs w)) (new_markets ∅ (fetched env w)))
      as Hdel
      by (rewrite Ht; simpl; now rewrite deliveries_app, Hed, Hd, Hempty).
    split.
    + intros m Hm.
      destruct (new_markets_covers ∅ (fetched env w) m Hm) as (m' & Hm' & Hid);
        [apply not_elem_of_empty|].
      exists m'. rewrite Hrep, Hdel. split; [assumption|]. split; [assumption|].
      intros c Hc. apply flat_deliveries_spec. auto.
    + intros Hnd. rewrite Hrep, Hdel, new_markets_all; [auto | assumption |].
      intros m _. apply not_elem_of_empty.
Qed.

Lemma C9_failed_first_fetch_empty_baseline_witness :
  reported (emitted (monitorMarkets Sample.listing) Sample.empty_baseline)
  = [Sample.bitcoin_100k; Sample.fed_cut].
Proof.
  destruct (proj2 (proj2 (C9_failed_first_fetch_empty_baseline Sample.listing))
              Sample.empty_baseline) as [_ Hall].
  - reflexivity.
  - reflexivity.
  - apply Hall. apply (bool_decide_unpack _). vm_compute. exact I.
Defined.

(** ** Claims about the preference store and the router *)

(** C7. Toggling a topic of the enumeration twice restores the store: the
    subscriber's record is what it was before the two toggles (what [get]
    returns for a subscriber who had none).  A record created on first
    interaction has exactly the eight topics, all enabled.  The premise
    that records are complete holds in every state the process reaches. *)
Theorem C7_toggle_involution :
  (forall (w : World) (chatId : ChatId) (topic : string),
     topic ∈ CATEGORIES.all -> records_complete w ->
     let twice := bind (toggle chatId topic) (fun _ => toggle chatId topic) in
     userPrefs (exec twice w) = userPrefs (exec (getUserPrefs chatId) w)
     /\ (forall prefs, JsMap.get (userPrefs w) chatId = Some prefs ->
           userPrefs (exec twice w) = userPrefs w))
  /\ (forall (w : World) (chatId : ChatId),
        JsMap.get (userPrefs w) chatId = None ->
        fst (getUserPrefs chatId w) = default_prefs /\
        JsMap.get (userPrefs (exec (getUserPrefs chatId) w)) chatId = Some default_prefs)
  /\ (forall t, t ∈ CATEGORIES.all -> default_prefs !! t = Some true)
  /\ dom default_prefs = list_to_set CATEGORIES.all
  /\ (forall env actions, records_complete (exec (run env actions) initial)).
Proof.
  split; [|split; [|split; [|split]]].
  - intros w chatId topic Htopic Hw twice.
    assert (userPrefs (exec twice w) = userPrefs (exec (getUserPrefs chatId) w)) as Htwice.
    { unfold twice. rewrite exec_bind, toggle_userPrefs.
      set (w1 := exec (toggle chatId topic) w).
      assert (userPrefs w1 =
              JsMap.set (userPrefs (exec (getUserPrefs chatId) w)) chatId
                (prefs_write (fst (getUserPrefs chatId w)) topic
                   (negb (prefs_read (fst (getUserPrefs chatId w)) topic)))) as Hw1
        by apply toggle_userPrefs.
      set (prefs0 := fst (getUserPrefs chatId w)) in *.
      set (once := prefs_write prefs0 topic (negb (prefs_read prefs0 topic))) in *.
      assert (JsMap.get (userPrefs w1) chatId = Some once) as Hget
        by (rewrite Hw1; apply JsMap_get_set_eq).
      unfold exec at 1. rewrite (getUserPrefs_known _ _ _ Hget). simpl.
      rewrite Hw1, JsMap_set_set. unfold once.
      rewrite prefs_flip_twice by (try assumption; now apply getUserPrefs_complete).
      apply JsMap_set_same, getUserPrefs_stored. }
    split; [exact Htwice|].
    intros prefs Hprefs. rewrite Htwice. unfold exec.
    now rewrite (getUserPrefs_known _ _ _ Hprefs).
  - intros w chatId Hnone. rewrite getUserPrefs_stored.
    now rewrite (getUserPrefs_fresh _ _ Hnone).
  - apply default_prefs_enabled.
  - apply (bool_decide_unpack _). vm_compute. exact I.
  - intros env actions. apply (store_ok_run env actions initial store_ok_initial).
Qed.

Lemma subscribed_complete : records_complete Sample.subscribed.
Proof.
  intros chatId prefs H. vm_compute in H.
  destruct chatId as [|p|p]; try discriminate.
  destruct (Pos.eqb 42 p) eqn:E; [|vm_compute in E; rewrite E in H; discriminate].
  vm_compute in E. rewrite E in H. injection H as <-.
  apply topic_cases; vm_compute; eauto.
Qed.

Lemma C7_toggle_involution_witness :
  userPrefs (exec (bind (toggle 42 CATEGORIES.CRYPTO)
                        (fun _ => toggle 42 CATEGORIES.CRYPTO)) Sample.subscribed)
  = userPrefs Sample.subscribed.
Proof.
  assert (CATEGORIES.CRYPTO ∈ CATEGORIES.all) as Htopic
    by (apply (bool_decide_unpack _); vm_compute; exact I).
  destruct (proj1 C7_toggle_involution Sample.subscribed 42%Z CATEGORIES.CRYPTO
              Htopic subscribed_complete) as [_ Hknown].
  eapply Hknown. vm_compute. reflexivity.
Defined.

(** C8. A toggle under a string outside the enumeration leaves all eight
    flags of every record as they were: the record it touches keeps the
    value of each of the eight topics (a record created by this toggle has
    them all enabled), every other record is untouched, and routing never
    reads the key, since a topic is always one of the eight. *)
Theorem C8_stray_toggle_frame (w : World) (chatId : ChatId) (key : string) :
  key ∉ CATEGORIES.all ->
  let w' := exec (toggle chatId key) w in
  (forall c prefs, JsMap.get (userPrefs w) c = Some prefs ->
     exists prefs', JsMap.get (userPrefs w') c = Some prefs' /\
       forall topic, topic ∈ CATEGORIES.all ->
         prefs' !! topic = prefs !! topic /\
         prefs_read prefs' topic = prefs_read prefs topic)
  /\ (forall c, c <> chatId -> JsMap.get (userPrefs w') c = JsMap.get (userPrefs w) c)
  /\ (JsMap.get (userPrefs w) chatId = None ->
        exists prefs', JsMap.get (userPrefs w') chatId = Some prefs' /\
          forall topic, topic ∈ CATEGORIES.all -> prefs' !! topic = Some true)
  /\ (forall market, detectCategory market <> key).
Proof.
  intros Hkey w'.
  assert (forall topic, topic ∈ CATEGORIES.all -> key <> topic) as Hne
    by (intros topic Ht ->; contradiction).
  pose proof (toggle_userPrefs chatId key w) as Hw'. simpl in Hw'. fold w' in Hw'.
  set (prefs0 := fst (getUserPrefs chatId w)) in *.
  assert (forall c, c <> chatId -> JsMap.get (userPrefs w') c = JsMap.get (userPrefs w) c)
    as Hother.
  { intros c Hc. rewrite Hw', JsMap_get_set_ne by congruence.
    apply getUserPrefs_other. congruence. }
  assert (forall (b : bool) topic, key <> topic ->
            prefs_read (prefs_write prefs0 key b) topic = prefs_read prefs0 topic) as Hread.
  { intros b topic Ht. unfold prefs_read. now rewrite prefs_write_frame. }
  split; [|split; [exact Hother|split]].
  - intros c prefs Hc. destruct (Z.eq_dec c chatId) as [->|Hcne].
    + eexists. split; [rewrite Hw'; apply JsMap_get_set_eq|].
      assert (prefs0 = prefs) as Heq
        by (unfold prefs0; now rewrite (getUserPrefs_known _ _ _ Hc)).
      intros topic Ht. rewrite <- Heq. split.
      * apply prefs_write_frame. auto.
      * apply Hread. auto.
    + exists prefs. split; [now rewrite Hother|]. auto.
  - intros Hnone. eexists. split; [rewrite Hw'; apply JsMap_get_set_eq|].
    intros topic Ht. rewrite prefs_write_frame by auto.
    unfold prefs0. rewrite (getUserPrefs_fresh _ _ Hnone). simpl.
    now apply default_prefs_enabled.
  - intros market Heq. apply Hkey. rewrite <- Heq. apply detectCategory_in_all.
Qed.

Lemma C8_stray_toggle_frame_witness :
  exists prefs',
    JsMap.get (userPrefs (exec (toggle 42 "constructor") Sample.subscribed)) 42
      = Some prefs' /\
    prefs_read prefs' CATEGORIES.SPORTS =
      prefs_read (fst (getUserPrefs 42 Sample.subscribed)) CATEGORIES.SPORTS.
Proof.
  assert ("constructor" ∉ CATEGORIES.all) as Hkey
    by (apply (bool_decide_unpack _); vm_compute; exact I).
  assert (CATEGORIES.SPORTS ∈ CATEGORIES.all) as Ht
    by (apply (bool_decide_unpack _); vm_compute; exact I).
  destruct (C8_stray_toggle_frame Sample.subscribed 42 "constructor" Hkey)
    as [Hframe _].
  destruct (Hframe 42%Z (fst (getUserPrefs 42 Sample.subscribed)))
    as [prefs' [Hget Hflags]].
  - vm_compute. reflexivity.
  - exists prefs'. split; [exact Hget | apply Hflags, Ht].
Defined.

(** C5. Routing an alert attempts one delivery to each subscriber whose
    record reads as enabled for the market's topic, to nobody else, in the
    order of the map, with the same text.  The attempts are the same
    whatever the transport answers, so a rejected delivery neither stops
    the later ones nor is repeated, and routing changes neither the seen
    set nor any other program variable.  The premises on the store hold in
    every state the process reaches. *)
Theorem C5_routing_exact_and_isolated (env : Env) (w : World) (market : Market) :
  let topic := detectCategory market in
  let evs := emitted (sendAlert env market) w in
  let w' := exec (sendAlert env market) w in
  deliveries evs =
    List.map (fun c => (c, market, alert_message market)) (recipients (userPrefs w) topic)
  /\ (forall c, c ∈ List.map (fun d => fst (fst d)) (deliveries evs) <->
        exists prefs, (c, prefs) ∈ userPrefs w /\ prefs_read prefs topic = true)
  /\ (records_complete w -> subscribers_unique w ->
      forall c, c ∈ List.map (fun d => fst (fst d)) (deliveries evs) <->
        exists prefs, JsMap.get (userPrefs w) c = Some prefs /\ prefs !! topic = Some true)
  /\ (forall env', deliveries (emitted (sendAlert env' market) w) = deliveries evs)
  /\ (subscribers_unique w -> NoDup (List.map (fun d => fst (fst d)) (deliveries evs)))
  /\ seenMarkets w' = seenMarkets w /\ firstRun w' = firstRun w
  /\ userPrefs w' = userPrefs w
  /\ reported evs = [] /\ requests evs = 0%nat
  /\ (forall actions, store_ok (exec (run env actions) initial)).
Proof.
  intros topic evs w'.
  assert (forall e, exists l,
            exec (sendAlert e market) w = log_to w l /\
            emitted (sendAlert e market) w = l /\
            deliveries l = alert_deliveries (userPrefs w) market /\
            reported l = [] /\ requests l = 0%nat) as Hrun.
  { intros e. destruct (sendAlert_run e market w) as (l & Hl & Hd & Hr & Hq).
    exists l. unfold exec. rewrite Hl. repeat split; try assumption.
    apply emitted_of_trace. unfold exec. now rewrite Hl. }
  destruct (Hrun env) as (l & Hexec & Hl & Hd & Hr & Hq).
  fold evs in Hl. fold w' in Hexec. subst l.
  assert (List.map (fun d => fst (fst d)) (deliveries evs) = recipients (userPrefs w) topic)
    as Hchats.
  { rewrite Hd. unfold alert_deliveries. rewrite List.map_map. apply List.map_id. }
  split; [exact Hd|]. split; [|split; [|split; [|split]]].
  - intros c. rewrite Hchats. apply recipients_spec.
  - intros Hcomplete Hunique c. rewrite Hchats, recipients_spec. split.
    + intros (prefs & Hin & Hread). exists prefs.
      assert (JsMap.get (userPrefs w) c = Some prefs) as Hget
        by now apply JsMap_elem_get.
      split; [assumption|].
      destruct (Hcomplete c prefs Hget topic (detectCategory_in_all market)) as [b Hb].
      rewrite <- Hread. rewrite (prefs_read_own _ _ _ Hb). exact Hb.
    + intros (prefs & Hget & Hflag). exists prefs.
      split; [now apply JsMap_get_elem | now apply prefs_read_own].
  - intros env'. destruct (Hrun env') as (l' & _ & -> & Hd' & _). now rewrite Hd, Hd'.
  - intros Hunique. rewrite Hchats. now apply recipients_NoDup.
  - rewrite Hexec. do 3 (split; [reflexivity|]). do 2 (split; [assumption|]).
    intros actions. apply (store_ok_run env actions initial store_ok_initial).
Qed.

Lemma C5_routing_exact_and_isolated_witness :
  NoDup (List.map (fun d => fst (fst d))
           (deliveries (emitted (sendAlert Sample.flaky Sample.fed_cut)
                                Sample.two_subscribers))).
Proof.
  apply (C5_routing_exact_and_isolated Sample.flaky Sample.two_subscribers Sample.fed_cut).
  apply (bool_decide_unpack _). vm_compute. exact I.
Defined.

(** * Further properties of the code *)

(** ** More on strings *)

Lemma string_app_assoc (a b c : string) : (a +:+ b) +:+ c = a +:+ (b +:+ c).
Proof.
  induction a as [|x a IH]; [reflexivity|].
  change ((String x a +:+ b) +:+ c) with (String x ((a +:+ b) +:+ c)).
  now rewrite IH.
Qed.

Lemma includes_app_l (a b k : string) :
  JsString.includes a k = true -> JsString.includes (a +:+ b) k = true.
Proof.
  rewrite !includes_spec. intros (pre & post & ->). exists pre, (post +:+ b).
  now rewrite !string_app_assoc.
Qed.

Lemma includes_app_r (a b k : string) :
  JsString.includes b k = true -> JsString.includes (a +:+ b) k = true.
Proof.
  rewrite !includes_spec. intros (pre & post & ->). exists (a +:+ pre), post.
  now rewrite !string_app_assoc.
Qed.

Lemma includes_join (sep : string) (parts : list string) (s k : string) :
  s ∈ parts -> JsString.includes s k = true ->
  JsString.includes (JsString.join sep parts) k = true.
Proof.
  intros Hin Hk. induction parts as [|x parts IH]; [now apply elem_of_nil in Hin|].
  apply elem_of_cons in Hin as [-> | Hin].
  - destruct parts; [exact Hk | now apply includes_app_l].
  - specialize (IH Hin). destruct parts as [|y parts]; [now apply elem_of_nil in Hin|].
    change (JsString.join sep (x :: y :: parts))
      with (x +:+ sep +:+ JsString.join sep (y :: parts)).
    now apply includes_app_r, includes_app_r.
Qed.

Lemma toLowerCase_join (sep : string) (parts : list string) :
  JsString.toLowerCase (JsString.join sep parts) =
  JsString.join (JsString.toLowerCase sep) (List.map JsString.toLowerCase parts).
Proof.
  induction parts as [|x parts IH]; [reflexivity|].
  destruct parts as [|y parts]; [reflexivity|].
  change (JsString.join sep (x :: y :: parts))
    with (x +:+ sep +:+ JsString.join sep (y :: parts)).
  rewrite !toLowerCase_app, IH. reflexivity.
Qed.

Lemma ToString_falsy_or (v : jsval) :
  truthy v = false -> ToString (js_or v (JStr "")) = "" /\ ToString (js_or v (JArr [])) = "".
Proof. intros H. unfold js_or. rewrite H. split; reflexivity. Qed.

(** ** More on the classifier *)

Lemma first_match_range (text : string) (rs : list (string * list string)) :
  ClassifierSpec.first_match text rs = CATEGORIES.OTHER \/
  ClassifierSpec.first_match text rs ∈ List.map fst rs.
Proof.
  induction rs as [|r rs IH]; simpl; [now left|].
  destruct (ClassifierSpec.rule_matches text r); [right; left|].
  destruct IH as [IH | IH]; [now left | right; now right].
Qed.

Lemma first_match_inv (text : string) (before after : list (string * list string))
    (r : string * list string) :
  NoDup (List.map fst (before ++ r :: after)) ->
  fst r <> CATEGORIES.OTHER ->
  ClassifierSpec.first_match text (before ++ r :: after) = fst r ->
  ClassifierSpec.rule_matches text r = true /\
  Forall (fun r' => ClassifierSpec.rule_matches text r' = false) before.
Proof.
  intros Hnd Hother. induction before as [|b before IH]; simpl in *.
  - apply NoDup_cons in Hnd as [Hr _].
    destruct (ClassifierSpec.rule_matches text r); [auto|].
    intros Heq. destruct (first_match_range text after) as [H | H].
    + congruence.
    + rewrite Heq in H. contradiction.
  - apply NoDup_cons in Hnd as [Hb Hnd].
    destruct (ClassifierSpec.rule_matches text b) eqn:Eb.
    + intros Heq. exfalso. apply Hb. rewrite Heq, List.map_app. simpl.
      apply elem_of_app. right. left.
    + intros Heq. destruct (IH Hnd Heq) as [Hm Hall]. split; [assumption|].
      constructor; assumption.
Qed.

Lemma first_match_other_inv (text : string) (rs : list (string * list string)) :
  CATEGORIES.OTHER ∉ List.map fst rs ->
  ClassifierSpec.first_match text rs = CATEGORIES.OTHER ->
  Forall (fun r => ClassifierSpec.rule_matches text r = false) rs.
Proof.
  induction rs as [|r rs IH]; simpl; [constructor|].
  intros Hother. apply not_elem_of_cons in Hother as [Hr Hother].
  destruct (ClassifierSpec.rule_matches text r) eqn:Er; [congruence|].
  intros Heq. constructor; [assumption | now apply IH].
Qed.

Lemma rule_matches_false_inv (text : string) (r : string * list string) (k : string) :
  ClassifierSpec.rule_matches text r = false -> k ∈ snd r ->
  JsString.includes text k = false.
Proof.
  unfold ClassifierSpec.rule_matches. intros Hr Hk.
  destruct (JsString.includes text k) eqn:E; [|reflexivity].
  rewrite <- Hr. symmetry. apply existsb_exists. exists k.
  split; [now apply list_elem_of_In | assumption].
Qed.

Lemma rules_topics_NoDup : NoDup (List.map fst ClassifierSpec.rules).
Proof. apply (bool_decide_unpack _). vm_compute. exact I. Qed.

Lemma rules_topics_not_other : CATEGORIES.OTHER ∉ List.map fst ClassifierSpec.rules.
Proof. apply (bool_decide_unpack _). vm_compute. exact I. Qed.

(** X1. What a result says about the text.  When [detectCategory] returns
    the topic of a rule, a keyword of that rule occurs in the lowered text
    and no keyword of an earlier rule does; when it returns Other, no
    keyword of any rule occurs. *)
Theorem X1_topic_reveals_text (market : Market) :
  (forall before r after,
     ClassifierSpec.rules = before ++ r :: after ->
     detectCategory market = fst r ->
     (exists k, k ∈ snd r /\ JsString.includes (category_text market) k = true) /\
     (forall r' k, r' ∈ before -> k ∈ snd r' ->
        JsString.includes (category_text market) k = false))
  /\ (detectCategory market = CATEGORIES.OTHER ->
      forall k, k ∈ ClassifierSpec.all_keywords ->
        JsString.includes (category_text market) k = false).
Proof.
  split.
  - intros before r after Hsplit Hres.
    rewrite detectCategory_classify in Hres. unfold ClassifierSpec.classify in Hres.
    assert (fst r <> CATEGORIES.OTHER) as Hother.
    { intros Heq. apply rules_topics_not_other. rewrite Hsplit, List.map_app, <- Heq.
      apply elem_of_app. right. left. }
    pose proof rules_topics_NoDup as Hnd. rewrite Hsplit in Hnd, Hres.
    destruct (first_match_inv _ _ _ _ Hnd Hother Hres) as [Hm Hbefore]. split.
    + apply existsb_exists in Hm as (k & Hk & Hinc). exists k.
      split; [now apply list_elem_of_In | assumption].
    + intros r' k Hr' Hk. eapply rule_matches_false_inv; [|exact Hk].
      apply (proj1 (Forall_forall _ _) Hbefore), Hr'.
  - intros Hres k Hk. rewrite detectCategory_classify in Hres.
    pose proof (first_match_other_inv _ _ rules_topics_not_other Hres) as Hall.
    unfold ClassifierSpec.all_keywords in Hk.
    apply list_elem_of_In, in_concat in Hk as (ks & Hks & Hk).
    apply in_map_iff in Hks as (r & <- & Hr).
    eapply rule_matches_false_inv; [|apply list_elem_of_In, Hk].
    apply (proj1 (Forall_forall _ _) Hall), list_elem_of_In, Hr.
Qed.

Lemma X1_topic_reveals_text_witness :
  JsString.includes (category_text Sample.fed_cut) "bitcoin" = false.
Proof.
  apply (proj2 (proj1 (X1_topic_reveals_text Sample.fed_cut)
           (firstn 3 ClassifierSpec.rules)
           (CATEGORIES.BUSINESS,
            ["stock"; "fed"; "rate"; "recession"; "economy"; "business"; "price"])
           (skipn 4 ClassifierSpec.rules)
           eq_refl eq_refl)
           (CATEGORIES.CRYPTO, ["bitcoin"; "crypto"; "eth"; "solana"; "coin"; "token"])
           "bitcoin").
  - apply (bool_decide_unpack _). vm_compute. exact I.
  - apply (bool_decide_unpack _). vm_compute. exact I.
Defined.

Lemma category_text_parts (market : Market) :
  category_text market =
  JsString.toLowerCase (ToString (question market)) +:+ " " +:+
  JsString.toLowerCase (ToString (js_or (group market) (JStr ""))) +:+ " " +:+
  JsString.toLowerCase (ToString (js_or (tags market) (JArr []))).
Proof. unfold category_text, concat_text. now rewrite !toLowerCase_app. Qed.

Lemma crypto_keyword_wins (market : Market) (k : string) :
  k ∈ ClassifierSpec.keywords CATEGORIES.CRYPTO ->
  JsString.includes (category_text market) k = true ->
  detectCategory market = CATEGORIES.CRYPTO.
Proof.
  intros Hk Hinc. rewrite detectCategory_classify.
  unfold ClassifierSpec.classify, ClassifierSpec.rules. simpl.
  erewrite rule_matches_true; [reflexivity | exact Hk | exact Hinc].
Qed.

(** X2. Every text field is searched.  A keyword that occurs, in any
    capitalisation, in the question, in the group or in one string of the
    tags array occurs in the text [detectCategory] inspects; so a Crypto
    keyword in a single tag makes the market Crypto whatever its question
    says. *)
Theorem X2_all_fields_searched (market : Market) (k : string) :
  (forall q, question market = JStr q ->
     JsString.includes (JsString.toLowerCase q) k = true ->
     JsString.includes (category_text market) k = true)
  /\ (forall g, group market = JStr g ->
        JsString.includes (JsString.toLowerCase g) k = true ->
        JsString.includes (category_text market) k = true)
  /\ (forall elts s, tags market = JArr elts -> JStr s ∈ elts ->
        JsString.includes (JsString.toLowerCase s) k = true ->
        JsString.includes (category_text market) k = true)
  /\ (forall elts s, tags market = JArr elts -> JStr s ∈ elts ->
        k ∈ ClassifierSpec.keywords CATEGORIES.CRYPTO ->
        JsString.includes (JsString.toLowerCase s) k = true ->
        detectCategory market = CATEGORIES.CRYPTO).
Proof.
  assert (forall elts s, tags market = JArr elts -> JStr s ∈ elts ->
            JsString.includes (JsString.toLowerCase s) k = true ->
            JsString.includes (category_text market) k = true) as Htags.
  { intros elts s Ht Hs Hinc. rewrite category_text_parts, Ht.
    do 4 apply includes_app_r. unfold js_or. simpl truthy. cbv iota.
    simpl ToString. rewrite toLowerCase_join.
    apply (includes_join _ _ (JsString.toLowerCase s)); [|assumption].
    apply list_elem_of_In, in_map, in_map_iff. exists (JStr s).
    split; [reflexivity | now apply list_elem_of_In]. }
  split; [|split; [|split]].
  - intros q Hq Hinc. rewrite category_text_parts, Hq. now apply includes_app_l.
  - intros g Hg Hinc. rewrite category_text_parts, Hg.
    apply includes_app_r, includes_app_r, includes_app_l.
    unfold js_or. simpl truthy. now destruct (String.eqb_spec g "") as [->|].
  - exact Htags.
  - intros elts s Ht Hs Hk Hinc. apply (crypto_keyword_wins market k Hk).
    now apply (Htags elts s).
Qed.

Lemma X2_all_fields_searched_witness :
  detectCategory Sample.tagged = CATEGORIES.CRYPTO.
Proof.
  apply (proj2 (proj2 (proj2 (X2_all_fields_searched Sample.tagged "eth")))
           [JStr "Layer 2"; JStr "Ethereum"] "Ethereum").
  - reflexivity.
  - right. left.
  - apply (bool_decide_unpack _). vm_compute. exact I.
  - reflexivity.
Defined.

(** X3. Empty metadata is no metadata.  When the group is absent, [null]
    or the empty string and the tags are absent, [null], the empty string
    or the empty array, the inspected text is the lowered question followed
    by two blanks, so such markets are classified by their question
    alone. *)
Theorem X3_empty_metadata_ignored (market : Market) :
  truthy (group market) = false ->
  truthy (tags market) = false \/ tags market = JArr [] ->
  category_text market = JsString.toLowerCase (ToString (question market)) +:+ "  "
  /\ (forall market',
        question market' = question market ->
        truthy (group market') = false ->
        truthy (tags market') = false \/ tags market' = JArr [] ->
        detectCategory market' = detectCategory market).
Proof.
  assert (forall m, truthy (group m) = false ->
            truthy (tags m) = false \/ tags m = JArr [] ->
            category_text m = JsString.toLowerCase (ToString (question m)) +:+ "  ") as Htext.
  { intros m Hg Ht. rewrite category_text_parts.
    rewrite (proj1 (ToString_falsy_or _ Hg)).
    destruct Ht as [Ht | Ht].
    - now rewrite (proj2 (ToString_falsy_or _ Ht)).
    - now rewrite Ht. }
  intros Hg Ht. split; [now apply Htext|].
  intros market' Hq Hg' Ht'. unfold detectCategory.
  now rewrite (Htext market' Hg' Ht'), (Htext market Hg Ht), Hq.
Qed.

Lemma X3_empty_metadata_ignored_witness :
  category_text Sample.openai = "who will acquire openai  ".
Proof.
  apply (X3_empty_metadata_ignored Sample.openai).
  - reflexivity.
  - right. reflexivity.
Defined.

(** X4. The separator takes part in matching.  The blank appended after
    the question completes the keyword "ai " for a question that ends in
    "ai" in any capitalisation: the Science rule matches, and the topic is
    never Pop Culture, News or Other. *)
Theorem X4_trailing_ai_matches (market : Market) (pre suffix : string) :
  question market = JStr (pre +:+ suffix) ->
  JsString.toLowerCase suffix = "ai" ->
  JsString.includes (category_text market) "ai " = true
  /\ detectCategory market ∈
       [ CATEGORIES.CRYPTO; CATEGORIES.POLITICS; CATEGORIES.SPORTS;
         CATEGORIES.BUSINESS; CATEGORIES.SCIENCE ].
Proof.
  intros Hq Hsuffix.
  assert (JsString.includes (category_text market) "ai " = true) as Hinc.
  { rewrite category_text_parts, Hq. simpl ToString.
    rewrite toLowerCase_app, Hsuffix, string_app_assoc.
    apply includes_app_r.
    change ("ai" +:+ " " +:+
            JsString.toLowerCase (ToString (js_or (group market) (JStr ""))) +:+ " " +:+
            JsString.toLowerCase (ToString (js_or (tags market) (JArr []))))
      with ("ai " +:+
            (JsString.toLowerCase (ToString (js_or (group market) (JStr ""))) +:+ " " +:+
             JsString.toLowerCase (ToString (js_or (tags market) (JArr []))))).
    apply includes_app_l. reflexivity. }
  split; [exact Hinc|].
  unfold detectCategory. rewrite Hinc, orb_true_r, orb_true_l.
  repeat match goal with
         | |- context [if ?b then _ else _] => destruct b
         end; set_solver.
Qed.

Lemma X4_trailing_ai_matches_witness :
  JsString.includes (category_text Sample.openai) "ai " = true /\
  detectCategory Sample.openai ∈
    [ CATEGORIES.CRYPTO; CATEGORIES.POLITICS; CATEGORIES.SPORTS;
      CATEGORIES.BUSINESS; CATEGORIES.SCIENCE ].
Proof.
  apply (X4_trailing_ai_matches Sample.openai "Who will acquire Open" "AI");
    reflexivity.
Defined.

(** ** The alert text *)

Lemma categoryEmoji_total (topic : string) :
  topic ∈ CATEGORIES.all -> is_Some (property categoryEmoji topic).
Proof. revert topic. apply topic_cases; vm_compute; eauto. Qed.

Lemma truthy_JStr (s : string) : s <> "" -> truthy (JStr s) = true.
Proof. intros H. simpl. now destruct (String.eqb_spec s ""). Qed.

(** X5. The alert text.  The icon table has an entry for every topic the
    classifier returns, so the icon is never the text "undefined".  The
    link is the event page of the slug when the slug is a non-empty string
    and the home page when the slug is absent, [null] or empty; the
    headline is the question, or "Unknown Market" when the question is
    absent, [null] or empty. *)
Theorem X5_alert_text (market : Market) :
  (exists emoji, property categoryEmoji (detectCategory market) = Some emoji)
  /\ (truthy (slug market) = false ->
      exists before, alert_message market =
        before +:+ "[View on Polymarket](https://polymarket.com)")
  /\ (forall s, slug market = JStr s -> s <> "" ->
      exists before, alert_message market =
        before +:+ "[View on Polymarket](https://polymarket.com/event/" +:+ s +:+ ")")
  /\ (truthy (question market) = false ->
      JsString.includes (alert_message market) "**Unknown Market**" = true)
  /\ (forall q, question market = JStr q -> q <> "" ->
      JsString.includes (alert_message market) ("**" +:+ q +:+ "**") = true).
Proof.
  destruct (categoryEmoji_total _ (detectCategory_in_all market)) as [emoji Hemoji].
  split; [eauto|]. unfold alert_message. cbv zeta. rewrite Hemoji. simpl default.
  split; [|split; [|split]].
  - intros Hslug.
    set (headline := ToString (js_or (question market) (JStr "Unknown Market"))).
    unfold js_or. rewrite Hslug. simpl truthy. cbv iota.
    exists ("🆕 **JUST LISTED** " +:+ emoji +:+ LF +:+ "━━━━━━━━━━━━━━" +:+ LF +:+
            "📊 **" +:+ headline +:+ "**" +:+ LF +:+ LF +:+ "🔗 ").
    rewrite !string_app_assoc. reflexivity.
  - intros s Hs Hne.
    set (headline := ToString (js_or (question market) (JStr "Unknown Market"))).
    rewrite Hs. unfold js_or. rewrite !(truthy_JStr s Hne). simpl ToString.
    exists ("🆕 **JUST LISTED** " +:+ emoji +:+ LF +:+ "━━━━━━━━━━━━━━" +:+ LF +:+
            "📊 **" +:+ headline +:+ "**" +:+ LF +:+ LF +:+ "🔗 ").
    rewrite !string_app_assoc. reflexivity.
  - intros Hq. unfold js_or at 1. rewrite Hq. simpl ToString at 1.
    apply includes_spec.
    exists ("🆕 **JUST LISTED** " +:+ emoji +:+ LF +:+ "━━━━━━━━━━━━━━" +:+ LF +:+ "📊 ").
    eexists. rewrite !string_app_assoc. reflexivity.
  - intros q Hq Hne. rewrite Hq. unfold js_or at 1.
    rewrite (truthy_JStr q Hne). simpl ToString at 1.
    apply includes_spec.
    exists ("🆕 **JUST LISTED** " +:+ emoji +:+ LF +:+ "━━━━━━━━━━━━━━" +:+ LF +:+ "📊 ").
    eexists. rewrite !string_app_assoc. reflexivity.
Qed.

Lemma X5_alert_text_witness :
  exists before, alert_message Sample.fed_cut =
    before +:+ "[View on Polymarket](https://polymarket.com/event/" +:+ "fed-cut" +:+ ")".
Proof.
  apply (proj1 (proj2 (proj2 (X5_alert_text Sample.fed_cut))) "fed-cut").
  - reflexivity.
  - discriminate.
Defined.

(** ** More on diffing *)

Lemma new_markets_sublist (seen : gset MarketId) (markets : list Market) :
  new_markets seen markets `sublist_of` markets.
Proof.
  revert seen. induction markets as [|m markets IH]; intros seen; simpl.
  - constructor.
  - destruct (bool_decide (id m ∈ seen)); [apply sublist_cons | apply sublist_skip]; apply IH.
Qed.

Lemma new_markets_ids (seen : gset MarketId) (markets : list Market) :
  list_to_set (List.map id (new_markets seen markets)) =
  (list_to_set (List.map id markets) : gset MarketId) ∖ seen.
Proof.
  revert seen. induction markets as [|m markets IH]; intros seen; simpl.
  - apply set_eq. intros y. rewrite elem_of_difference, elem_of_empty. tauto.
  - destruct (bool_decide_reflect (id m ∈ seen)) as [Hseen|Hnew].
    + rewrite IH. apply set_eq. intros y.
      rewrite !elem_of_difference, elem_of_union, elem_of_singleton.
      split; [tauto|]. intros [[-> | H] Hy]; [contradiction | tauto].
    + simpl. rewrite IH. apply set_eq. intros y.
      rewrite !elem_of_union, !elem_of_difference, !elem_of_union, !elem_of_singleton.
      destruct (decide (y = id m)) as [->|Hne]; tauto.
Qed.

Lemma new_markets_none (seen : gset MarketId) (markets : list Market) :
  (forall m, m ∈ markets -> id m ∈ seen) -> new_markets seen markets = [].
Proof.
  intros Hall. induction markets as [|m markets IH]; simpl; [reflexivity|].
  rewrite bool_decide_eq_true_2 by (apply Hall; left).
  apply IH. intros m' Hm'. apply Hall. now right.
Qed.

Lemma requests_fetch_error (env : Env) (w : World) : requests (fetch_error env w) = 0%nat.
Proof. now destruct (fetch_error_quiet env w) as (_ & _ & H). Qed.

(** X6. What a fetched list does to the tracker.  When the [fetchMarkets]
    call of a cycle returns a list of markets (the empty one after a throw
    or a falsy body), the cycle, first or later, leaves as seen set the one
    before it plus the identifiers of that list, nothing else; it leaves
    [firstRun] false and the preference records untouched. *)
Theorem X6_cycle_marks_fetched (env : Env) (w : World) (markets : list Market) :
  fetched env w = markets ->
  let w' := exec (monitorMarkets env) w in
  seenMarkets w' = list_to_set (List.map id markets) ∪ seenMarkets w
  /\ (forall i, i ∈ seenMarkets w' <->
        i ∈ seenMarkets w \/ exists m, m ∈ markets /\ id m = i)
  /\ firstRun w' = false
  /\ userPrefs w' = userPrefs w.
Proof.
  intros <- w'.
  assert (seenMarkets w' = list_to_set (List.map id (fetched env w)) ∪ seenMarkets w /\
          firstRun w' = false /\ userPrefs w' = userPrefs w) as (Hs & Hf & Hu).
  { destruct (firstRun w) eqn:Hfirst.
    - destruct (monitorMarkets_first env w Hfirst) as (Hs & Hf & Hu & _). auto.
    - destruct (monitorMarkets_steady env w Hfirst) as (evs & Hs & Hf & Hu & _). auto. }
  split; [exact Hs|]. split; [|split; assumption].
  intros i. rewrite Hs, elem_of_union, elem_of_list_to_set, list_elem_of_In, in_map_iff.
  split.
  - intros [(m & Hid & Hm) | H]; [right | now left].
    exists m. split; [now apply list_elem_of_In | assumption].
  - intros [H | (m & Hm & Hid)]; [now right | left].
    exists m. split; [assumption | now apply list_elem_of_In].
Qed.

Lemma X6_cycle_marks_fetched_witness :
  seenMarkets (exec (monitorMarkets Sample.listing) Sample.steady) =
  list_to_set (List.map id [Sample.bitcoin_100k; Sample.fed_cut])
    ∪ seenMarkets Sample.steady.
Proof.
  apply (X6_cycle_marks_fetched Sample.listing Sample.steady
           [Sample.bitcoin_100k; Sample.fed_cut]).
  reflexivity.
Defined.

(** X7. What a steady cycle reports.  The reported markets are taken from
    the fetched list in feed order, and their identifiers are exactly the
    fetched identifiers that were not yet in the seen set. *)
Theorem X7_reported_is_the_difference (env : Env) (w : World) :
  firstRun w = false ->
  let evs := emitted (monitorMarkets env) w in
  reported evs `sublist_of` fetched env w
  /\ list_to_set (List.map id (reported evs)) =
     (list_to_set (List.map id (fetched env w)) : gset MarketId) ∖ seenMarkets w.
Proof.
  intros Hfirst evs.
  destruct (monitorMarkets_steady env w Hfirst) as (l & _ & _ & _ & Ht & Hr & _).
  apply emitted_of_trace in Ht. fold evs in Ht.
  destruct (fetch_error_quiet env w) as (Her & _).
  assert (reported evs = new_markets (seenMarkets w) (fetched env w)) as ->
    by (rewrite Ht; simpl; now rewrite reported_app, Her, Hr).
  split; [apply new_markets_sublist | apply new_markets_ids].
Qed.

Lemma X7_reported_is_the_difference_witness :
  reported (emitted (monitorMarkets Sample.listing) Sample.steady)
    `sublist_of` fetched Sample.listing Sample.steady.
Proof.
  apply (X7_reported_is_the_difference Sample.listing Sample.steady). reflexivity.
Defined.

(** X8. Polling an unchanged feed is silent.  When every market a cycle
    fetches carries an identifier that the cycle before it fetched too, the
    cycle reports nothing, sends nothing and leaves the seen set as it
    is. *)
Theorem X8_unchanged_feed_is_silent (env : Env) (w : World) :
  let w1 := exec (monitorMarkets env) w in
  (forall m, m ∈ fetched env w1 -> exists m0, m0 ∈ fetched env w /\ id m0 = id m) ->
  let evs := emitted (monitorMarkets env) w1 in
  reported evs = [] /\ deliveries evs = []
  /\ seenMarkets (exec (monitorMarkets env) w1) = seenMarkets w1.
Proof.
  intros w1 Hsame evs.
  assert (seenMarkets w1 = list_to_set (List.map id (fetched env w)) ∪ seenMarkets w /\
          firstRun w1 = false) as (Hs1 & Hf1).
  { destruct (firstRun w) eqn:Hfirst.
    - destruct (monitorMarkets_first env w Hfirst) as (Hs & Hf & _). auto.
    - destruct (monitorMarkets_steady env w Hfirst) as (l & Hs & Hf & _). auto. }
  assert (forall m, m ∈ fetched env w1 -> id m ∈ seenMarkets w1) as Hseen.
  { intros m Hm. destruct (Hsame m Hm) as (m0 & Hm0 & <-).
    rewrite Hs1. apply elem_of_union. left.
    apply elem_of_list_to_set, list_elem_of_In, in_map, list_elem_of_In, Hm0. }
  destruct (monitorMarkets_steady env w1 Hf1) as (l & Hs & _ & _ & Ht & Hr & Hd & _).
  apply emitted_of_trace in Ht. fold evs in Ht.
  destruct (fetch_error_quiet env w1) as (Her & Hed & _).
  rewrite (new_markets_none _ _ Hseen) in Hr, Hd. simpl in Hd.
  split; [|split].
  - rewrite Ht. simpl. now rewrite reported_app, Her, Hr.
  - rewrite Ht. simpl. now rewrite deliveries_app, Hed, Hd.
  - rewrite Hs. apply set_eq. intros y. rewrite elem_of_union, elem_of_list_to_set.
    split; [|tauto]. intros [Hy | Hy]; [|assumption].
    apply list_elem_of_In, in_map_iff in Hy as (m & <- & Hm).
    apply Hseen, list_elem_of_In, Hm.
Qed.

Lemma X8_unchanged_feed_is_silent_witness :
  reported (emitted (monitorMarkets Sample.listing)
              (exec (monitorMarkets Sample.listing) Sample.steady)) = [].
Proof.
  apply (X8_unchanged_feed_is_silent Sample.listing Sample.steady).
  intros m Hm. exists m. split; [exact Hm | reflexivity].
Defined.

(** ** The order of a cycle's actions *)

Lemma without_failures_app (a b : list event) :
  without_failures (a ++ b) = without_failures a ++ without_failures b.
Proof. apply List.filter_app. Qed.

Lemma failures_app (a b : list event) : failures (a ++ b) = failures a ++ failures b.
Proof. apply omap_app. Qed.

Lemma log_to_inj (w : World) (a b : list event) : log_to w a = log_to w b -> a = b.
Proof.
  intros H. assert (trace (log_to w a) = trace (log_to w b)) as Ht by now rewrite H.
  simpl in Ht. now apply app_inv_head in Ht.
Qed.

Section Shape.

Variable env : Env.

Lemma try_sendMessage_cases (chatId : ChatId) (market : Market) (msg : string) (w : World) :
  try_sendMessage env chatId market msg w =
  (tt, log_to w (EvSendAlert chatId market msg ::
                 match bot_sendMessage env (trace w) chatId msg with
                 | Some message => [EvLogSendFailed chatId message]
                 | None => []
                 end)).
Proof.
  unfold try_sendMessage, emit, log_to. simpl.
  destruct (bot_sendMessage env (trace w) chatId msg); simpl; [|reflexivity].
  now rewrite <- app_assoc.
Qed.

Lemma sendAlert_loop_shape (market : Market) (category msg : string)
    (entries : list (ChatId * Prefs)) (w : World) :
  exists evs,
    forEach entries
      (fun '(chatId, prefs) =>
         if prefs_read prefs category
         then try_sendMessage env chatId market msg
         else ret tt) w = (tt, log_to w evs) /\
    without_failures evs =
      List.map (fun c => EvSendAlert c market msg) (recipients entries category) /\
    failures evs `sublist_of` recipients entries category /\
    ((forall h c t, bot_sendMessage env h c t = None) -> failures evs = []) /\
    ((forall h c t, bot_sendMessage env h c t <> None) ->
       failures evs = recipients entries category).
Proof.
  revert w. induction entries as [|[chatId prefs] entries IH]; intros w.
  - exists []. simpl. unfold ret. rewrite log_to_nil. repeat split; constructor.
  - simpl. rewrite bind_run. unfold recipients. simpl.
    destruct (prefs_read prefs category); [|apply IH].
    rewrite try_sendMessage_cases. simpl fst. simpl snd.
    match goal with |- context [forEach entries _ ?w1] =>
      destruct (IH w1) as (evs & He & Hw & Hsub & Hnone & Hall) end.
    rewrite He, log_to_app. eexists. split; [reflexivity|].
    rewrite without_failures_app, failures_app, Hw. simpl.
    destruct (bot_sendMessage env (trace w) chatId msg) as [message|] eqn:Hout; simpl.
    + split; [reflexivity|]. split; [now apply sublist_skip|]. split.
      * intros Hok. rewrite Hok in Hout. discriminate.
      * intros Hrej. now rewrite (Hall Hrej).
    + split; [reflexivity|]. split; [now apply sublist_cons|]. split.
      * intros Hok. now apply Hnone.
      * intros Hrej. exfalso. now apply (Hrej (trace w) chatId msg).
Qed.

Lemma sendAlert_shape (market : Market) (w : World) :
  exists evs,
    sendAlert env market w = (tt, log_to w evs) /\
    without_failures evs = alert_sends (userPrefs w) market /\
    failures evs `sublist_of` recipients (userPrefs w) (detectCategory market) /\
    ((forall h c t, bot_sendMessage env h c t = None) -> failures evs = []) /\
    ((forall h c t, bot_sendMessage env h c t <> None) ->
       failures evs = recipients (userPrefs w) (detectCategory market)).
Proof.
  unfold sendAlert, bind, userPrefs_entries, alert_sends. apply sendAlert_loop_shape.
Qed.

Lemma steady_loop_shape (markets : list Market) (w : World) :
  exists w' evs,
    forEach markets
      (fun market =>
         bind (seenMarkets_has (id market)) (fun seen =>
           if negb seen then
             bind (emit (EvLogNewMarket market)) (fun _ =>
               bind (seenMarkets_add (id market)) (fun _ => sendAlert env market))
           else ret tt)) w = (tt, w') /\
    trace w' = trace w ++ evs /\
    without_failures evs =
      flat_map (fun m => EvLogNewMarket m :: alert_sends (userPrefs w) m)
               (new_markets (seenMarkets w) markets).
Proof.
  revert w. induction markets as [|m markets IH]; intros w.
  - exists w, []. simpl. unfold ret. now rewrite app_nil_r.
  - simpl. rewrite !bind_run. simpl.
    destruct (bool_decide_reflect (id m ∈ seenMarkets w)) as [Hseen|Hnew]; simpl.
    + apply IH.
    + rewrite !bind_run. simpl.
      match goal with |- context [sendAlert env m ?w1] =>
        destruct (sendAlert_shape m w1) as (e1 & He1 & Hw1 & _)
      end.
      rewrite He1. simpl.
      match goal with |- context [forEach markets _ ?w2] =>
        destruct (IH w2) as (w' & evs & -> & Ht & Hw)
      end.
      simpl in *.
      exists w', ([EvLogNewMarket m] ++ e1 ++ evs). split; [reflexivity|]. split.
      * rewrite Ht, <- !app_assoc. reflexivity.
      * rewrite !without_failures_app, Hw1, Hw. reflexivity.
Qed.

Lemma monitorMarkets_steady_shape (w : World) :
  firstRun w = false ->
  without_failures (emitted (monitorMarkets env) w) =
  [EvLogChecking; EvHttpGet] ++ fetch_error env w ++
  flat_map (fun m => EvLogNewMarket m :: alert_sends (userPrefs w) m)
           (new_markets (seenMarkets w) (fetched env w)).
Proof.
  intros Hfirst.
  assert (exists evs,
            trace (exec (monitorMarkets env) w) =
              trace w ++ [EvLogChecking; EvHttpGet] ++ fetch_error env w ++ evs /\
            without_failures evs =
              flat_map (fun m => EvLogNewMarket m :: alert_sends (userPrefs w) m)
                       (new_markets (seenMarkets w) (fetched env w))) as (evs & Ht & Hw).
  { unfold exec, monitorMarkets.
    rewrite bind_run, bind_run, monitorMarkets_fetch. simpl fst. simpl snd.
    rewrite bind_run. unfold read_firstRun at 1. simpl fst. simpl snd.
    simpl firstRun. rewrite Hfirst.
    destruct (steady_loop_shape (fetched env w)
                (log_to w (EvLogChecking :: EvHttpGet :: fetch_error env w)))
      as (w1 & evs & -> & Ht & Hw).
    exists evs. simpl in *. rewrite Ht, <- !app_assoc. auto. }
  apply emitted_of_trace in Ht. rewrite Ht, !without_failures_app, Hw.
  f_equal. f_equal. unfold fetch_error.
  now destruct (axios_get env (trace w ++ [EvLogChecking])).
Qed.

End Shape.

Lemma without_failures_id (evs : list event) :
  failures evs = [] -> without_failures evs = evs.
Proof.
  induction evs as [|e evs IH]; [reflexivity|].
  destruct e; simpl; intros H; now rewrite ?IH.
Qed.

(** X9. The order of a steady cycle.  Leaving the failure log lines aside,
    the cycle logs that it checks, sends one request, logs the fetch error
    if there is one, and then handles the reported markets one after the
    other: the report of a market comes first and is followed by one
    message to each of its recipients, in the order of the map, before the
    next market is reported. *)
Theorem X9_steady_cycle_order (env : Env) (w : World) :
  firstRun w = false ->
  let evs := emitted (monitorMarkets env) w in
  without_failures evs =
    [EvLogChecking; EvHttpGet] ++ fetch_error env w ++
    flat_map (fun m => EvLogNewMarket m :: alert_sends (userPrefs w) m) (reported evs)
  /\ deliveries evs = flat_map (alert_deliveries (userPrefs w)) (reported evs).
Proof.
  intros Hfirst evs.
  destruct (monitorMarkets_steady env w Hfirst) as (l & _ & _ & _ & Ht & Hr & Hd & _).
  apply emitted_of_trace in Ht. fold evs in Ht.
  destruct (fetch_error_quiet env w) as (Her & Hed & _).
  assert (reported evs = new_markets (seenMarkets w) (fetched env w)) as ->
    by (rewrite Ht; simpl; now rewrite reported_app, Her, Hr).
  split.
  - apply monitorMarkets_steady_shape, Hfirst.
  - rewrite Ht. simpl. now rewrite deliveries_app, Hed, Hd.
Qed.

Lemma X9_steady_cycle_order_witness :
  without_failures (emitted (monitorMarkets Sample.flaky) Sample.empty_baseline) =
  [EvLogChecking; EvHttpGet] ++ fetch_error Sample.flaky Sample.empty_baseline ++
  flat_map (fun m => EvLogNewMarket m ::
                     alert_sends (userPrefs Sample.empty_baseline) m)
           (reported (emitted (monitorMarkets Sample.flaky) Sample.empty_baseline)).
Proof.
  apply (X9_steady_cycle_order Sample.flaky Sample.empty_baseline). reflexivity.
Defined.

(** X10. Rejected deliveries.  The trace of one alert, failure log lines
    aside, is one message per recipient in the order of the map; the
    failures logged are among the recipients, in that order, at most one
    per attempt.  With a transport that accepts everything nothing else is
    in the trace; with a transport that rejects everything each recipient
    is attempted and logged once. *)
Theorem X10_rejections_are_logged (env : Env) (w : World) (market : Market) :
  let evs := emitted (sendAlert env market) w in
  without_failures evs = alert_sends (userPrefs w) market
  /\ failures evs `sublist_of` recipients (userPrefs w) (detectCategory market)
  /\ ((forall h c t, bot_sendMessage env h c t = None) ->
      evs = alert_sends (userPrefs w) market)
  /\ ((forall h c t, bot_sendMessage env h c t <> None) ->
      failures evs = recipients (userPrefs w) (detectCategory market)).
Proof.
  intros evs.
  destruct (sendAlert_shape env market w) as (l & Hl & Hw & Hsub & Hnone & Hall).
  assert (evs = l) as ->
    by (apply emitted_of_trace; unfold exec; now rewrite Hl).
  split; [exact Hw|]. split; [exact Hsub|]. split; [|exact Hall].
  intros Hok. rewrite <- Hw. symmetry. apply without_failures_id, Hnone, Hok.
Qed.

Lemma X10_rejections_are_logged_witness :
  emitted (sendAlert Sample.listing Sample.fed_cut) Sample.two_subscribers =
  alert_sends (userPrefs Sample.two_subscribers) Sample.fed_cut.
Proof.
  apply (X10_rejections_are_logged Sample.listing Sample.two_subscribers Sample.fed_cut).
  intros h c t. reflexivity.
Defined.

(** X11. The first cycle's log line.  A cycle run while [firstRun] holds
    whose [fetchMarkets] call returns a list of markets performs, in this
    order, the checking log, one request, the fetch error log if the
    request threw, and the line that reports how many identifiers are
    tracked.  That number is the size of the seen set: for a process that
    starts with an empty set it counts the distinct identifiers of the
    list, its length when no identifier repeats. *)
Theorem X11_first_cycle_log (env : Env) (w : World) (markets : list Market) :
  firstRun w = true ->
  fetched env w = markets ->
  let n := size (list_to_set (List.map id markets) ∪ seenMarkets w) in
  emitted (monitorMarkets env) w =
    [EvLogChecking; EvHttpGet] ++ fetch_error env w ++ [EvLogInitialized n]
  /\ (seenMarkets w = ∅ -> NoDup (List.map id markets) -> n = length markets).
Proof.
  intros Hfirst <- n.
  destruct (monitorMarkets_first env w Hfirst) as (Hs & _ & _ & Ht).
  apply emitted_of_trace in Ht. rewrite Hs in Ht. split; [exact Ht|].
  intros Hempty Hnd. unfold n. rewrite Hempty, (right_id_L ∅ (∪)).
  rewrite size_list_to_set by assumption. apply length_map.
Qed.

Lemma X11_first_cycle_log_witness :
  emitted (monitorMarkets Sample.listing) Sample.two_subscribers =
  [EvLogChecking; EvHttpGet] ++ fetch_error Sample.listing Sample.two_subscribers ++
  [EvLogInitialized
     (size (list_to_set (List.map id [Sample.bitcoin_100k; Sample.fed_cut])
              ∪ seenMarkets Sample.two_subscribers))].
Proof.
  apply (X11_first_cycle_log Sample.listing Sample.two_subscribers
           [Sample.bitcoin_100k; Sample.fed_cut]); reflexivity.
Defined.

(** ** Counting over a process lifetime *)

Section Counting.

Variable env : Env.

Lemma monitorMarkets_counts (w : World) :
  exists evs,
    trace (exec (monitorMarkets env) w) = trace w ++ evs /\
    requests evs = 1%nat /\ firstRun (exec (monitorMarkets env) w) = false.
Proof.
  destruct (firstRun w) eqn:Hfirst.
  - destruct (monitorMarkets_first env w Hfirst) as (_ & Hf & _ & Ht).
    eexists. split; [exact Ht|]. split; [|exact Hf].
    change ([EvLogChecking; EvHttpGet] ++ fetch_error env w ++
            [EvLogInitialized (size (seenMarkets (exec (monitorMarkets env) w)))])
      with ([EvLogChecking; EvHttpGet] ++ (fetch_error env w ++
            [EvLogInitialized (size (seenMarkets (exec (monitorMarkets env) w)))])).
    now rewrite !requests_app, requests_fetch_error.
  - destruct (monitorMarkets_steady env w Hfirst) as (evs & _ & Hf & _ & Ht & _ & _ & Hq).
    eexists. split; [exact Ht|]. split; [|exact Hf].
    now rewrite !requests_app, requests_fetch_error, Hq.
Qed.

Lemma handle_counts (a : action) (w : World) :
  exists evs,
    trace (exec (handle env a) w) = trace w ++ evs /\
    requests evs = ticks [a] /\
    firstRun (exec (handle env a) w) = firstRun w && Nat.eqb (ticks [a]) 0.
Proof.
  assert (forall (c : M unit), is_quiet c ->
            exists evs, trace (exec c w) = trace w ++ evs /\
              requests evs = 0%nat /\ firstRun (exec c w) = firstRun w && true) as Hq.
  { intros c Hc. destruct (Hc w) as (_ & Hf & evs & Ht & _ & _ & Hr).
    exists evs. rewrite andb_true_r. auto. }
  destruct a as [|chatId|chatId|chatId data]; simpl.
  - destruct (monitorMarkets_counts w) as (evs & Ht & Hr & Hf).
    exists evs. rewrite Hf, andb_false_r. auto.
  - apply Hq, is_quiet_on_start.
  - apply Hq, is_quiet_on_settings.
  - apply Hq, is_quiet_on_callback_query.
Qed.

Lemma ticks_cons (a : action) (actions : list action) :
  ticks (a :: actions) = (ticks [a] + ticks actions)%nat.
Proof. unfold ticks. simpl. now destruct a. Qed.

Lemma run_counts (actions : list action) (w : World) :
  exists evs,
    trace (exec (run env actions) w) = trace w ++ evs /\
    requests evs = ticks actions /\
    firstRun (exec (run env actions) w) = firstRun w && Nat.eqb (ticks actions) 0.
Proof.
  revert w. induction actions as [|a actions IH]; intros w.
  - exists []. simpl. rewrite app_nil_r, andb_true_r. auto.
  - unfold run. simpl. rewrite exec_bind.
    destruct (handle_counts a w) as (e1 & Ht1 & Hr1 & Hf1).
    destruct (IH (exec (handle env a) w)) as (e2 & Ht2 & Hr2 & Hf2).
    exists (e1 ++ e2). unfold run in Ht2, Hf2.
    rewrite (ticks_cons a actions).
    rewrite Ht2, Ht1, <- app_assoc, requests_app, Hr1, Hr2, Hf2, Hf1.
    split; [reflexivity|]. split; [reflexivity|].
    rewrite <- andb_assoc. f_equal.
    now destruct (ticks [a]), (ticks actions).
Qed.

End Counting.

(** X12. One request per tick.  Over any sequence of ticks, commands and
    callbacks, whatever the feed and the transport answer, the number of
    requests sent to the feed is the number of ticks: a failed request is
    not repeated and no command causes one. *)
Theorem X12_one_request_per_tick (env : Env) (actions : list action) (w : World) :
  requests (emitted (run env actions) w) = ticks actions.
Proof.
  destruct (run_counts env actions w) as (evs & Ht & Hr & _).
  apply emitted_of_trace in Ht. now rewrite Ht.
Qed.

(** X13. [firstRun] never comes back.  Over any sequence of ticks,
    commands and callbacks, a flag that is false stays false, since no
    handler assigns it anything but [false]; and a sequence without ticks
    leaves the flag as it was, since only the poll cycle writes it. *)
Theorem X13_firstRun_never_set_again (env : Env) (actions : list action) (w : World) :
  (firstRun w = false -> firstRun (exec (run env actions) w) = false)
  /\ (ticks actions = 0%nat -> firstRun (exec (run env actions) w) = firstRun w).
Proof.
  destruct (run_counts env actions w) as (evs & _ & _ & Hf).
  split.
  - intros Hfalse. now rewrite Hf, Hfalse.
  - intros Hnone. now rewrite Hf, Hnone, andb_true_r.
Qed.

Lemma X13_firstRun_never_set_again_witness :
  firstRun (exec (run Sample.listing Sample.scenario) Sample.steady) = false.
Proof.
  apply (proj1 (X13_firstRun_never_set_again Sample.listing Sample.scenario
                  Sample.steady)).
  reflexivity.
Defined.

(** X14. Commands and callbacks leave the tracker alone.  [/start],
    [/settings] and a callback query, whatever its data, send no request
    to the feed, report no market, send no alert and change neither the
    seen set nor [firstRun]. *)
Theorem X14_commands_leave_tracker (w : World) (chatId : ChatId) (data : string) :
  quiet w (exec (on_start chatId) w)
  /\ quiet w (exec (on_settings chatId) w)
  /\ quiet w (exec (on_callback_query chatId data) w).
Proof.
  split; [apply is_quiet_on_start|].
  split; [apply is_quiet_on_settings | apply is_quiet_on_callback_query].
Qed.

(** ** More on the preference store *)

Lemma JsMap_set_absent {V} (m : list (ChatId * V)) (k : ChatId) (v : V) :
  JsMap.get m k = None -> JsMap.set m k v = m ++ [(k, v)].
Proof.
  induction m as [|[k0 v0] m IH]; simpl; [reflexivity|].
  destruct (Z.eqb k0 k); [discriminate|]. intros H. now rewrite IH.
Qed.

Lemma JsMap_has_keys {V} (m : list (ChatId * V)) (k : ChatId) :
  JsMap.has m k = true <-> k ∈ List.map fst m.
Proof.
  unfold JsMap.has. induction m as [|[k0 v0] m IH]; simpl.
  - split; [discriminate | intros H; now apply elem_of_nil in H].
  - destruct (Z.eqb_spec k0 k) as [->|Hne].
    + split; [left | reflexivity].
    + rewrite IH. rewrite elem_of_cons. split; [tauto | intros [?|?]; congruence].
Qed.

Lemma trace_getUserPrefs (chatId : ChatId) (w : World) :
  trace (exec (getUserPrefs chatId) w) = trace w.
Proof.
  unfold exec. destruct (JsMap.get (userPrefs w) chatId) as [prefs|] eqn:E.
  - now rewrite (getUserPrefs_known _ _ _ E).
  - now rewrite (getUserPrefs_fresh _ _ E).
Qed.

Lemma keys_getUserPrefs (chatId : ChatId) (w : World) :
  List.map fst (userPrefs w) `prefix_of`
  List.map fst (userPrefs (exec (getUserPrefs chatId) w)).
Proof.
  unfold exec. destruct (JsMap.get (userPrefs w) chatId) as [prefs|] eqn:E.
  - now rewrite (getUserPrefs_known _ _ _ E).
  - rewrite (getUserPrefs_fresh _ _ E). simpl.
    rewrite (JsMap_set_absent _ _ _ E), List.map_app. now apply prefix_app_r.
Qed.

Lemma keys_toggle (chatId : ChatId) (key : string) (w : World) :
  List.map fst (userPrefs (exec (toggle chatId key) w)) =
  List.map fst (userPrefs (exec (getUserPrefs chatId) w)).
Proof.
  rewrite toggle_userPrefs, JsMap_set_keys. unfold JsMap.has.
  now rewrite getUserPrefs_stored.
Qed.

Lemma keys_handle (env : Env) (a : action) (w : World) :
  List.map fst (userPrefs w) `prefix_of`
  List.map fst (userPrefs (exec (handle env a) w)).
Proof.
  destruct a as [|chatId|chatId|chatId data]; simpl.
  - now rewrite userPrefs_monitorMarkets.
  - rewrite userPrefs_on_start. apply keys_getUserPrefs.
  - rewrite userPrefs_on_settings. apply keys_getUserPrefs.
  - destruct (on_callback_query_cases chatId data) as [-> | [key ->]].
    + reflexivity.
    + rewrite keys_toggle. apply keys_getUserPrefs.
Qed.

(** X15. Subscribers are only ever appended.  Over any sequence of ticks,
    commands and callbacks the list of subscribers, in the order in which
    alerts are sent, keeps its earlier entries in place and grows at the
    end only: nobody is removed or moved, a toggle included. *)
Theorem X15_subscribers_only_appended (env : Env) (actions : list action) (w : World) :
  List.map fst (userPrefs w) `prefix_of`
    List.map fst (userPrefs (exec (run env actions) w))
  /\ (forall c, JsMap.has (userPrefs w) c = true ->
        JsMap.has (userPrefs (exec (run env actions) w)) c = true).
Proof.
  assert (List.map fst (userPrefs w) `prefix_of`
            List.map fst (userPrefs (exec (run env actions) w))) as Hprefix.
  { revert w. induction actions as [|a actions IH]; intros w.
    - reflexivity.
    - unfold run. simpl. rewrite exec_bind.
      etransitivity; [apply (keys_handle env a) | apply IH]. }
  split; [exact Hprefix|].
  intros c Hc. apply JsMap_has_keys. apply JsMap_has_keys in Hc.
  destruct Hprefix as [k ->]. apply elem_of_app. now left.
Qed.

Lemma X15_subscribers_only_appended_witness :
  JsMap.has (userPrefs (exec (run Sample.growing Sample.scenario) Sample.subscribed)) 42
  = true.
Proof.
  apply (proj2 (X15_subscribers_only_appended Sample.growing Sample.scenario
                  Sample.subscribed)).
  reflexivity.
Defined.

(** X16. [/start] and [/settings] subscribe without resetting.  For a chat
    that has a record, both commands leave every record as it is; for a
    chat that has none, both append a record with all topics enabled at
    the end of the map, so [/settings] subscribes just as [/start] does.
    Each shows the keyboard drawn from the stored record. *)
Theorem X16_commands_subscribe_once (w : World) (chatId : ChatId) :
  (forall prefs, JsMap.get (userPrefs w) chatId = Some prefs ->
     userPrefs (exec (on_start chatId) w) = userPrefs w /\
     userPrefs (exec (on_settings chatId) w) = userPrefs w)
  /\ (JsMap.get (userPrefs w) chatId = None ->
      userPrefs (exec (on_start chatId) w) = userPrefs w ++ [(chatId, default_prefs)] /\
      userPrefs (exec (on_settings chatId) w) = userPrefs w ++ [(chatId, default_prefs)])
  /\ emitted (on_settings chatId) w =
       [EvSendKeyboard chatId "⚙️ **Alert Preferences**"
          (fst (getSettingsKeyboard chatId w))].
Proof.
  rewrite userPrefs_on_start, userPrefs_on_settings. split; [|split].
  - intros prefs H. unfold exec. now rewrite (getUserPrefs_known _ _ _ H).
  - intros H. unfold exec. rewrite (getUserPrefs_fresh _ _ H). simpl.
    now rewrite (JsMap_set_absent _ _ _ H).
  - apply emitted_of_trace. unfold on_settings, getSettingsKeyboard, exec.
    rewrite !bind_run. simpl. f_equal. apply trace_getUserPrefs.
Qed.

Lemma X16_commands_subscribe_once_witness :
  userPrefs (exec (on_start 42) Sample.subscribed) = userPrefs Sample.subscribed /\
  userPrefs (exec (on_settings 42) Sample.subscribed) = userPrefs Sample.subscribed.
Proof.
  eapply (proj1 (X16_commands_subscribe_once Sample.subscribed 42%Z)).
  vm_compute. reflexivity.
Defined.

Lemma getSettingsKeyboard_buttons (chatId : ChatId) (w : World) :
  buttons (fst (getSettingsKeyboard chatId w)) =
  List.map (topic_button (fst (getUserPrefs chatId w))) CATEGORIES.all.
Proof. unfold getSettingsKeyboard. rewrite bind_run. reflexivity. Qed.

(** X17. The settings keyboard and the callback handler agree.  The
    keyboard has four rows of two buttons, one button per topic in the
    order of [CATEGORIES]; a button is labelled with the topic's name,
    ticked exactly when the record reads as enabled for it; and the
    callback data of every button is accepted by the handler and decoded to
    the button's own topic, so pressing a button toggles what it shows. *)
Theorem X17_keyboard_round_trip (w : World) (chatId : ChatId) :
  let kb := fst (getSettingsKeyboard chatId w) in
  let prefs := fst (getUserPrefs chatId w) in
  List.map (@length button) kb = [2; 2; 2; 2]%nat
  /\ buttons kb = List.map (topic_button prefs) CATEGORIES.all
  /\ (forall b, b ∈ buttons kb ->
        exists topic, topic ∈ CATEGORIES.all /\
          fst b = (if prefs_read prefs topic then "✅" else "❌") +:+ " " +:+ topic /\
          JsString.startsWith "toggle_" (snd b) = true /\
          JsString.remove_first "toggle_" (snd b) = topic /\
          on_callback_query chatId (snd b) = toggle chatId topic).
Proof.
  intros kb prefs. split; [|split].
  - unfold kb, getSettingsKeyboard. rewrite bind_run. reflexivity.
  - apply getSettingsKeyboard_buttons.
  - intros b Hb. unfold kb in Hb. rewrite getSettingsKeyboard_buttons in Hb.
    apply list_elem_of_In, in_map_iff in Hb as (topic & <- & Ht).
    exists topic. split; [now apply list_elem_of_In|].
    split; [reflexivity|]. split; [reflexivity|].
    split; [simpl; now destruct topic | reflexivity].
Qed.

Lemma X17_keyboard_round_trip_witness :
  exists topic, topic ∈ CATEGORIES.all /\
    fst ("❌ Sports", "toggle_Sports") =
      (if prefs_read (fst (getUserPrefs 42 Sample.subscribed)) topic
       then "✅" else "❌") +:+ " " +:+ topic /\
    JsString.startsWith "toggle_" (snd ("❌ Sports", "toggle_Sports")) = true /\
    JsString.remove_first "toggle_" (snd ("❌ Sports", "toggle_Sports")) = topic /\
    on_callback_query 42 (snd ("❌ Sports", "toggle_Sports")) = toggle 42 topic.
Proof.
  apply (proj2 (proj2 (X17_keyboard_round_trip Sample.subscribed 42%Z))
           ("❌ Sports", "toggle_Sports")).
  vm_compute. right. right. left.
Defined.

Lemma toggle_run (chatId : ChatId) (key : string) (w : World) :
  let w0 := exec (getUserPrefs chatId) w in
  let prefs := fst (getUserPrefs chatId w) in
  let prefs' := prefs_write prefs key (negb (prefs_read prefs key)) in
  let w1 := with_userPrefs w0 (JsMap.set (userPrefs w0) chatId prefs') in
  toggle chatId key w =
  (tt, log_to w1
         [ EvEditKeyboard chatId (fst (getSettingsKeyboard chatId w1));
           EvAnswerCallback
             (key +:+ " alerts " +:+
              (if prefs_read prefs' key then "enabled" else "disabled")) ]).
Proof.
  intros w0 prefs prefs' w1.
  assert (JsMap.get (userPrefs w1) chatId = Some prefs') as Hget
    by (simpl; apply JsMap_get_set_eq).
  unfold toggle, on_callback_query. simpl.
  change (String.append "" key) with key.
  rewrite bind_run. fold prefs. fold prefs'. change (snd (getUserPrefs chatId w)) with w0.
  rewrite !bind_run. simpl.
  rewrite JsMap_set_set.
  unfold getSettingsKeyboard. rewrite !bind_run.
  unfold w1, with_userPrefs in *.
  rewrite !(getUserPrefs_known _ _ _ Hget). simpl.
  unfold emit, log_to. simpl. rewrite <- app_assoc. reflexivity.
Qed.

(** X18. A toggle answers with what it stored.  A toggle, for any key,
    performs exactly two transport calls: it redraws the keyboard from the
    record as stored after the flip, and answers the callback with the key
    followed by "alerts enabled" when the stored record now reads as
    enabled for the key and "alerts disabled" otherwise. *)
Theorem X18_toggle_reports_stored_state (w : World) (chatId : ChatId) (key : string) :
  let w' := exec (toggle chatId key) w in
  exists prefs',
    JsMap.get (userPrefs w') chatId = Some prefs' /\
    emitted (toggle chatId key) w =
      [ EvEditKeyboard chatId (fst (getSettingsKeyboard chatId w'));
        EvAnswerCallback
          (key +:+ " alerts " +:+
           (if prefs_read prefs' key then "enabled" else "disabled")) ] /\
    buttons (fst (getSettingsKeyboard chatId w')) =
      List.map (topic_button prefs') CATEGORIES.all.
Proof.
  intros w'. pose proof (toggle_run chatId key w) as Hrun. simpl in Hrun.
  set (w0 := exec (getUserPrefs chatId) w) in *.
  set (prefs' := prefs_write (fst (getUserPrefs chatId w)) key
                   (negb (prefs_read (fst (getUserPrefs chatId w)) key))) in *.
  set (w1 := with_userPrefs w0 (JsMap.set (userPrefs w0) chatId prefs')) in *.
  assert (JsMap.get (userPrefs w1) chatId = Some prefs') as Hget
    by (simpl; apply JsMap_get_set_eq).
  assert (forall evs, fst (getSettingsKeyboard chatId (log_to w1 evs)) =
                      fst (getSettingsKeyboard chatId w1)) as Hkb.
  { intros evs. unfold getSettingsKeyboard. rewrite !bind_run.
    rewrite (getUserPrefs_known _ (log_to w1 evs) prefs') by exact Hget.
    now rewrite (getUserPrefs_known _ w1 prefs') by exact Hget. }
  exists prefs'. unfold w', exec. rewrite Hrun. simpl snd. split; [exact Hget|]. split.
  - rewrite Hkb. apply emitted_of_trace. unfold exec. rewrite Hrun. simpl.
    f_equal. unfold w0. apply trace_getUserPrefs.
  - rewrite Hkb, getSettingsKeyboard_buttons.
    now rewrite (getUserPrefs_known _ w1 prefs') by exact Hget.
Qed.

Lemma prefs_write_read (prefs : Prefs) (key : string) (v : bool) :
  key <> "__proto__" -> prefs_read (prefs_write prefs key v) key = v.
Proof.
  intros Hne. unfold prefs_write.
  destruct (String.eqb_spec key "__proto__"); [contradiction|].
  apply prefs_read_own, lookup_insert_eq.
Qed.

(** X19. One toggle flips one flag.  For any key but [__proto__], after a
    toggle the subscriber's record reads the opposite of what it read for
    that key, every other own property of the record is as before, and the
    records of all other subscribers are untouched.  For [__proto__] the
    record is left as it is. *)
Theorem X19_toggle_flips_one_flag (w : World) (chatId : ChatId) (key : string) :
  let prefs := fst (getUserPrefs chatId w) in
  let w' := exec (toggle chatId key) w in
  exists prefs',
    JsMap.get (userPrefs w') chatId = Some prefs'
    /\ (key <> "__proto__" -> prefs_read prefs' key = negb (prefs_read prefs key))
    /\ (key = "__proto__" -> prefs' = prefs)
    /\ (forall k, k <> key -> prefs' !! k = prefs !! k)
    /\ (forall c, c <> chatId ->
          JsMap.get (userPrefs w') c = JsMap.get (userPrefs w) c).
Proof.
  intros prefs w'.
  pose proof (toggle_userPrefs chatId key w) as Hw'. simpl in Hw'. fold w' prefs in Hw'.
  eexists. split; [rewrite Hw'; apply JsMap_get_set_eq|].
  split; [|split; [|split]].
  - intros Hne. now apply prefs_write_read.
  - intros ->. reflexivity.
  - intros k Hk. apply prefs_write_frame. congruence.
  - intros c Hc. rewrite Hw', JsMap_get_set_ne by congruence.
    apply getUserPrefs_other. congruence.
Qed.

Lemma X19_toggle_flips_one_flag_witness :
  exists prefs',
    JsMap.get (userPrefs (exec (toggle 42 CATEGORIES.SPORTS) Sample.subscribed)) 42
      = Some prefs' /\
    prefs_read prefs' CATEGORIES.SPORTS =
      negb (prefs_read (fst (getUserPrefs 42 Sample.subscribed)) CATEGORIES.SPORTS).
Proof.
  destruct (X19_toggle_flips_one_flag Sample.subscribed 42 CATEGORIES.SPORTS)
    as (prefs' & Hget & Hflip & _).
  exists prefs'. split; [exact Hget|]. apply Hflip. discriminate.
Defined.

Lemma recipients_get (subscribers : list (ChatId * Prefs)) (topic : string) (c : ChatId) :
  NoDup (List.map fst subscribers) ->
  c ∈ recipients subscribers topic <->
  exists prefs, JsMap.get subscribers c = Some prefs /\ prefs_read prefs topic = true.
Proof.
  intros Hnd. rewrite recipients_spec. split.
  - intros (prefs & Hin & Hread). exists prefs. split; [now apply JsMap_elem_get | assumption].
  - intros (prefs & Hget & Hread). exists prefs. split; [now apply JsMap_get_elem | assumption].
Qed.

Lemma deliveries_chats (env : Env) (market : Market) (w : World) :
  List.map (fun d => fst (fst d)) (deliveries (emitted (sendAlert env market) w)) =
  recipients (userPrefs w) (detectCategory market).
Proof.
  destruct (sendAlert_run env market w) as (l & Hl & Hd & _).
  assert (emitted (sendAlert env market) w = l) as ->
    by (apply emitted_of_trace; unfold exec; now rewrite Hl).
  rewrite Hd. unfold alert_deliveries. rewrite List.map_map. apply List.map_id.
Qed.

(** X20. A toggle decides who is alerted next.  In a store with one entry
    per subscriber, after a subscriber toggles the topic of a market, an
    alert for that market is sent to them exactly when their record read as
    disabled for the topic before the toggle; whether any other subscriber
    is alerted is unchanged. *)
Theorem X20_toggle_switches_alerts (env : Env) (w : World) (chatId : ChatId)
    (market : Market) :
  store_ok w ->
  let topic := detectCategory market in
  let w' := exec (toggle chatId topic) w in
  let alerted := fun (st : World) =>
    List.map (fun d => fst (fst d)) (deliveries (emitted (sendAlert env market) st)) in
  (chatId ∈ alerted w' <-> prefs_read (fst (getUserPrefs chatId w)) topic = false)
  /\ (forall c, c <> chatId -> c ∈ alerted w' <-> c ∈ alerted w).
Proof.
  intros Hok topic w' alerted. unfold alerted. rewrite !deliveries_chats. fold topic.
  pose proof (store_ok_toggle chatId topic w Hok) as [_ Hunique']. fold w' in Hunique'.
  destruct Hok as [_ Hunique].
  pose proof (toggle_userPrefs chatId topic w) as Hw'. simpl in Hw'. fold w' in Hw'.
  assert (topic <> "__proto__") as Hproto.
  { intros Heq. pose proof (topic_not_proto topic (detectCategory_in_all market)) as H.
    rewrite Heq in H. discriminate. }
  split.
  - rewrite (recipients_get _ _ _ Hunique'), Hw', JsMap_get_set_eq. split.
    + intros (prefs' & [= <-] & Hread).
      rewrite prefs_write_read in Hread by assumption.
      now apply negb_true_iff.
    + intros Hread. eexists. split; [reflexivity|].
      rewrite prefs_write_read by assumption. now rewrite Hread.
  - intros c Hc. rewrite (recipients_get _ _ _ Hunique'), (recipients_get _ _ _ Hunique).
    rewrite Hw', JsMap_get_set_ne by congruence.
    rewrite getUserPrefs_other by congruence. reflexivity.
Qed.

Lemma X20_toggle_switches_alerts_witness :
  42%Z ∈
    List.map (fun d => fst (fst d))
      (deliveries (emitted (sendAlert Sample.listing Sample.fed_cut)
                     (exec (toggle 42 (detectCategory Sample.fed_cut))
                           Sample.two_subscribers)))
  <-> prefs_read (fst (getUserPrefs 42 Sample.two_subscribers))
        (detectCategory Sample.fed_cut) = false.
Proof.
  apply (X20_toggle_switches_alerts Sample.listing Sample.two_subscribers 42%Z
           Sample.fed_cut).
  apply (store_ok_run Sample.listing [Start 42; Start 7] initial store_ok_initial).
Defined.

(** ** The profile script *)

(** X21. The profile script stops at the first rejected call.  Whatever
    the transport answers, the script ends by exiting exactly once, with
    code 0 or 1; the calls it made are an initial part of name, description,
    short description, in this order; each accepted call is confirmed by
    one log line; with code 0 all three calls were made and no error was
    logged; with code 1 exactly one error was logged, the one of the last
    call made, and no later call was attempted. *)
Theorem X21_profile_script_stops_at_first_error (api : UpdateBotInfo.Api) :
  let run := UpdateBotInfo.updateProfile api [] in
  let tr := snd run in
  fst run = UpdateBotInfo.Exited
  /\ UpdateBotInfo.calls tr `prefix_of`
       [ UpdateBotInfo.the_name; UpdateBotInfo.the_description;
         UpdateBotInfo.the_short_description ]
  /\ exists code,
       UpdateBotInfo.exits tr = [code] /\ last tr = Some (UpdateBotInfo.Exit code)
       /\ (code = 0%Z \/ code = 1%Z)
       /\ (code = 0%Z ->
           length (UpdateBotInfo.calls tr) = 3%nat /\ UpdateBotInfo.errors tr = [] /\
           UpdateBotInfo.confirmations tr = 3%nat)
       /\ (code = 1%Z ->
           exists message, UpdateBotInfo.errors tr = [message] /\
             S (UpdateBotInfo.confirmations tr) = length (UpdateBotInfo.calls tr))
       /\ ((forall h c, api h c = None) -> code = 0%Z).
Proof.
  unfold UpdateBotInfo.updateProfile, UpdateBotInfo.try_catch, UpdateBotInfo.andThen,
    UpdateBotInfo.console_log, UpdateBotInfo.console_error, UpdateBotInfo.await,
    UpdateBotInfo.process_exit.
  simpl.
  destruct (api _ UpdateBotInfo.the_name) as [m1|] eqn:E1; simpl.
  { split; [reflexivity|]. split; [now exists [UpdateBotInfo.the_description;
                                               UpdateBotInfo.the_short_description]|].
    exists 1%Z. repeat split; try (now right); try discriminate; eauto.
    intros Hok. rewrite Hok in E1. discriminate. }
  destruct (api _ UpdateBotInfo.the_description) as [m2|] eqn:E2; simpl.
  { split; [reflexivity|]. split; [now exists [UpdateBotInfo.the_short_description]|].
    exists 1%Z. repeat split; try (now right); try discriminate; eauto.
    intros Hok. rewrite Hok in E2. discriminate. }
  destruct (api _ UpdateBotInfo.the_short_description) as [m3|] eqn:E3; simpl.
  { split; [reflexivity|]. split; [now exists []|].
    exists 1%Z. repeat split; try (now right); try discriminate; eauto.
    intros Hok. rewrite Hok in E3. discriminate. }
  split; [reflexivity|]. split; [now exists []|].
  exists 0%Z. repeat split; try (now left); try discriminate.
Qed.

Lemma X21_profile_script_stops_at_first_error_witness :
  UpdateBotInfo.calls (snd (UpdateBotInfo.updateProfile (fun _ _ => None) [])) `prefix_of`
    [ UpdateBotInfo.the_name; UpdateBotInfo.the_description;
      UpdateBotInfo.the_short_description ].
Proof.
  apply (X21_profile_script_stops_at_first_error (fun _ _ => None)).
Defined.

(** ** An empty body *)

Lemma monitorMarkets_nothing_fetched (env : Env) (w : World) :
  fetched env w = [] ->
  exec (monitorMarkets env) w =
  {| seenMarkets := seenMarkets w; firstRun := false; userPrefs := userPrefs w;
     trace := trace w ++ [EvLogChecking; EvHttpGet] ++ fetch_error env w ++
              (if firstRun w then [EvLogInitialized (size (seenMarkets w))] else []) |}.
Proof.
  intros Hfetched. unfold exec, monitorMarkets.
  rewrite bind_run, bind_run, monitorMarkets_fetch, Hfetched. simpl fst. simpl snd.
  rewrite bind_run. unfold read_firstRun at 1. simpl fst. simpl snd. simpl firstRun.
  destruct (firstRun w) eqn:Hfirst; simpl.
  - rewrite <- !app_assoc. reflexivity.
  - unfold ret, log_to. simpl. now rewrite app_nil_r, Hfirst.
Qed.

(** X22. A falsy body is an empty feed, not an error.  When the request of
    a cycle resolves with a falsy body, [fetchMarkets] returns the empty
    list and logs nothing: a later cycle consists of the checking log and
    the request alone, a first cycle adds its tracking line, and in both
    cases the seen set is unchanged and nothing is reported or sent. *)
Theorem X22_falsy_body_is_empty_feed (env : Env) (w : World) :
  axios_get env (trace w ++ [EvLogChecking]) = FetchData None ->
  let evs := emitted (monitorMarkets env) w in
  let w' := exec (monitorMarkets env) w in
  fetched env w = []
  /\ evs = [EvLogChecking; EvHttpGet] ++
           (if firstRun w then [EvLogInitialized (size (seenMarkets w))] else [])
  /\ seenMarkets w' = seenMarkets w
  /\ firstRun w' = false.
Proof.
  intros Hbody evs w'.
  assert (fetched env w = []) as Hfetched
    by (pose proof (fetched_cases env w) as H; now rewrite Hbody in H).
  assert (fetch_error env w = []) as Herr
    by (unfold fetch_error; now rewrite Hbody).
  pose proof (monitorMarkets_nothing_fetched env w Hfetched) as Hrun.
  fold w' in Hrun. rewrite Herr in Hrun.
  split; [exact Hfetched|]. split; [|now rewrite Hrun].
  apply emitted_of_trace. fold w'. now rewrite Hrun.
Qed.

Lemma X22_falsy_body_is_empty_feed_witness :
  emitted (monitorMarkets (mkEnv (fun _ => FetchData None) (fun _ _ _ => None)))
          Sample.steady
  = [EvLogChecking; EvHttpGet] ++
    (if firstRun Sample.steady
     then [EvLogInitialized (size (seenMarkets Sample.steady))] else []).
Proof.
  apply (X22_falsy_body_is_empty_feed
           (mkEnv (fun _ => FetchData None) (fun _ _ _ => None)) Sample.steady).
  reflexivity.
Defined.
